(** * The club resource entitlement engine of [src/server/services/club.service.ts]

    A shallow embedding of the club service: the relational tables it reads
    and writes are lists of rows, every service function is a computation in a
    small state-and-exception monad over the store, and the statements it
    issues through [dbWrite], [dbRead] or a transaction client are primitive
    actions of that monad.  The theorems at the end state what the functions do
    to the grant table ([EntityAccess]), to the denormalized availability flag
    and to the ledger. *)

From stdpp Require Import base decidable option list gmap strings sorting.

Local Open Scope Z_scope.

(** ** Data model *)

(** [SupportedClubEntities] (declared in [club.schema], outside the service):
    the kinds of resource that can be gated. *)
Inductive EntityType := ModelVersion | Article | Post.

(** The [accessorType] column of [EntityAccess]. *)
Module AccessorType.
Inductive t := Club | ClubTier | User.
End AccessorType.

(** The [Availability] enum of the ORM client: the service writes
    [Availability.Public] and [Availability.Private]. *)
Inductive Availability := Public | Private.

(** The [ClubAdminPermission] values the service tests. *)
Inductive ClubAdminPermission := ManageClub | ManageTiers | ManageResources.

#[global] Instance EntityType_eq_dec : EqDecision EntityType.
Proof. solve_decision. Defined.
#[global] Instance AccessorType_eq_dec : EqDecision AccessorType.t.
Proof. solve_decision. Defined.
#[global] Instance Availability_eq_dec : EqDecision Availability.
Proof. solve_decision. Defined.
#[global] Instance ClubAdminPermission_eq_dec : EqDecision ClubAdminPermission.
Proof. solve_decision. Defined.

Definition EntityType_code (t : EntityType) : Z :=
  match t with ModelVersion => 0 | Article => 1 | Post => 2 end.

Definition EntityType_of_code (z : Z) : EntityType :=
  if decide (z = 0) then ModelVersion else if decide (z = 1) then Article else Post.

#[global] Instance EntityType_countable : Countable EntityType.
Proof.
  apply (inj_countable' EntityType_code EntityType_of_code).
  intros []; reflexivity.
Defined.

(** A resource is the pair [(entityId, entityType)]. *)
Record Entity := mkEntity { entityId : Z; entityType : EntityType }.

#[global] Instance Entity_eq_dec : EqDecision Entity.
Proof. solve_decision. Defined.

Definition entity_key (e : Entity) : Z * EntityType := (entityId e, entityType e).

(** Rows of the tables the service touches. *)
Record Club := mkClub { club_id : Z; club_userId : Z; club_name : string }.

Record ClubAdmin := mkClubAdmin {
  admin_clubId : Z;
  admin_userId : Z;
  admin_permissions : list ClubAdminPermission }.

Record ClubTier := mkClubTier {
  tier_id : Z;
  tier_clubId : Z;
  tier_name : string;
  tier_description : string;
  tier_unitAmount : Z;
  tier_currency : string;
  tier_joinable : bool;
  tier_unlisted : bool;
  tier_memberLimit : option Z;
  tier_coverImageId : option Z }.

Record ClubMembership := mkClubMembership {
  membership_userId : Z;
  membership_clubTierId : Z }.

Record EntityAccess := mkEntityAccess {
  accessToId : Z;
  accessToType : EntityType;
  accessorId : Z;
  accessorType : AccessorType.t;
  addedById : Z }.

#[global] Instance Club_eq_dec : EqDecision Club.
Proof. solve_decision. Defined.
#[global] Instance ClubAdmin_eq_dec : EqDecision ClubAdmin.
Proof. solve_decision. Defined.
#[global] Instance ClubTier_eq_dec : EqDecision ClubTier.
Proof. solve_decision. Defined.
#[global] Instance ClubMembership_eq_dec : EqDecision ClubMembership.
Proof. solve_decision. Defined.
#[global] Instance EntityAccess_eq_dec : EqDecision EntityAccess.
Proof. solve_decision. Defined.

(** The store: one list of rows per table, in the order the database returns
    them, and the availability column of the resources, keyed by resource.
    A resource without an entry has the column's default, [Public]. *)
Record Store := mkStore {
  clubs : list Club;
  clubAdmins : list ClubAdmin;
  clubTiers : list ClubTier;
  clubMemberships : list ClubMembership;
  entityAccess : list EntityAccess;
  availability : gmap (Z * EntityType) Availability }.

Definition availabilityOf (s : Store) (e : Entity) : Availability :=
  default Public (availability s !! entity_key e).

(** The grants of a resource, of every accessor type. *)
Definition grantsOf (s : Store) (e : Entity) : list EntityAccess :=
  filter (λ a, accessToId a = entityId e ∧ accessToType a = entityType e) (entityAccess s).

(** ** The ledger *)

Inductive BuzzAccountType := AccountUser | AccountClub.
Inductive TransactionType := Tip.

Record BuzzAccount := mkBuzzAccount { balance : option Z }.

Record BuzzTransaction := mkBuzzTransaction {
  toAccountId : Z;
  fromAccountId : Z;
  fromAccountType : BuzzAccountType;
  transactionType : TransactionType;
  amount : Z }.

(** ** Effects

    What a run leaves behind besides the store: the states it committed, each
    visible to every other reader from then on, and the calls it made to the
    ledger, in the order they happened. *)
Inductive Event :=
  | Commit (s : Store)
  | BuzzCall (t : BuzzTransaction).

Record World := mkWorld { store : Store; trace : list Event }.

(** The errors the service raises or lets through: the two helpers of
    [errorHandling], the ORM's record-not-found (P2025) and unique-constraint
    (P2002) errors, and the [TypeError] of a property read on [undefined]. *)
Inductive Error :=
  | AuthorizationError | BadRequestError | RecordNotFound | TypeError
  | UniqueConstraintViolation.

Inductive Res (A : Type) := Ok (a : A) | Throw (e : Error).
Arguments Ok {A} a.
Arguments Throw {A} e.

Definition M (A : Type) : Type := World → Res A * World.

Definition ret {A} (a : A) : M A := λ w, (Ok a, w).

Definition bind {A B} (m : M A) (k : A → M B) : M B :=
  λ w, match m w with
       | (Ok a, w') => k a w'
       | (Throw e, w') => (Throw e, w')
       end.

#[global] Instance M_ret : MRet M := @ret.
#[global] Instance M_bind : MBind M := λ A B k m, bind m k.

(** The database client a statement goes through: [dbWrite] (each statement
    commits on its own) or the client [tx] of an open transaction (statements
    take effect for the transaction and are committed together). *)
Inductive Client := DbWrite | Tx.

(** What the service code does to the database: a read, a write through a
    client, a throw.  The code runs in two settings, on its own and inside the
    callback of [$transaction]; each of them says what the three mean. *)
Class Db (F : Type → Type) := mkDb {
  query : ∀ {A}, (Store → A) → F A;
  execute : Client → (Store → Store) → F unit;
  throw : ∀ {A}, Error → F A }.

(** On its own: a write through [dbWrite] commits, and [store] is what the
    connection sees.  A function that was handed a client [tx] by its caller
    writes through it without committing. *)
#[global] Instance M_db : Db M := {|
  query A f := λ w, (Ok (f (store w)), w);
  execute c f := λ w, let s := f (store w) in
                      (Ok tt, mkWorld s (match c with
                                         | DbWrite => trace w ++ [Commit s]
                                         | Tx => trace w
                                         end));
  throw A e := λ w, (Throw e, w) |}.

(** Inside the callback of a transaction there are two connections: the
    world [outside], which holds the committed store and the trace, and the
    [view] of the transaction, the committed store with the transaction's own
    writes on top. *)
Record TxWorld := mkTxWorld { outside : World; view : Store }.

Definition MT (A : Type) : Type := TxWorld → Res A * TxWorld.

#[global] Instance MT_ret : MRet MT := λ A a t, (Ok a, t).
#[global] Instance MT_bind : MBind MT := λ A B k m t,
  match m t with
  | (Ok a, t') => k a t'
  | (Throw e, t') => (Throw e, t')
  end.

(** Reads go through [tx] and see the view.  A write through [tx] changes
    the view only.  A write through [dbWrite] is a statement of another
    connection: it changes the committed store and commits at once, and the
    transaction sees it from then on. *)
#[global] Instance MT_db : Db MT := {|
  query A f := λ t, (Ok (f (view t)), t);
  execute c f := λ t,
    match c with
    | Tx => (Ok tt, mkTxWorld (outside t) (f (view t)))
    | DbWrite =>
        let s := f (store (outside t)) in
        (Ok tt, mkTxWorld (mkWorld s (trace (outside t) ++ [Commit s])) (f (view t)))
    end;
  throw A e := λ t, (Throw e, t) |}.

(** A service function that is handed the client [tx] issues every statement
    through it: it runs on the view of the transaction, and the calls it makes
    to the ledger go to the trace. *)
Definition onView {A} (m : M A) : MT A :=
  λ t, match m (mkWorld (view t) (trace (outside t))) with
       | (r, w') => (r, mkTxWorld (mkWorld (store (outside t)) (trace w')) (store w'))
       end.

(** [dbWrite.$transaction(async (tx) => body)]: when the body returns, the
    view of the transaction is committed as one state; when it throws, the
    view is dropped, and what was committed through [dbWrite] in the meantime
    stays. *)
Definition transaction {A} (body : Client → MT A) : M A :=
  λ w, match body Tx (mkTxWorld w (store w)) with
       | (Ok a, t) => (Ok a, mkWorld (view t) (trace (outside t) ++ [Commit (view t)]))
       | (Throw e, t) => (Throw e, outside t)
       end.

Definition emit (ev : Event) : M unit :=
  λ w, (Ok tt, mkWorld (store w) (trace w ++ [ev])).

(** JavaScript truthiness of an optional number: [undefined] and [0] are
    falsy. *)
Definition truthy (n : option Z) : bool :=
  match n with Some z => bool_decide (z ≠ 0) | None => false end.

(** ** userContributingClubs *)

Record ContributingClub := mkContributingClub {
  cc_id : Z;
  cc_name : string;
  cc_userId : Z;
  cc_admin : option ClubAdmin }.

(** [admins: { where: { userId } }] on one club. *)
Definition adminsOf (s : Store) (userId clubId : Z) : list ClubAdmin :=
  filter (λ a, admin_clubId a = clubId ∧ admin_userId a = userId) (clubAdmins s).

(** [id: clubIds ? { in: clubIds } : undefined]: no condition when the
    list is not given. *)
Definition idIn (ids : option (list Z)) (id : Z) : Prop :=
  match ids with Some l => id ∈ l | None => True end.

#[global] Instance idIn_dec ids id : Decision (idIn ids id).
Proof. destruct ids; simpl; apply _. Defined.

Definition userContributingClubs (userId : Z) (clubIds : option (list Z)) (s : Store)
  : list ContributingClub :=
  let found :=
    filter (λ c, idIn clubIds (club_id c)
                 ∧ (club_userId c = userId ∨ adminsOf s userId (club_id c) ≠ []))
           (clubs s) in
  (λ c, mkContributingClub (club_id c) (club_name c) (club_userId c)
                           (head (adminsOf s userId (club_id c)))) <$> found.

(** ** Collaborators outside the service

    [entityOwnership] and [entityRequiresClub] (common.service),
    [getUserBuzzAccount] (buzz.service) and [createEntityImages]
    (image.service) are imported by the service and defined elsewhere.  The
    service functions take them as a record of functions; what a theorem says
    holds for every implementation of them. *)

Record EntityOwnership := mkEntityOwnership {
  own_entityId : Z;
  own_entityType : EntityType;
  isOwner : bool }.

(** One requested club of [upsertClubResource], and one gating club of the
    lookup's answer: a club id with an optional list of tier ids. *)
Record ClubScope := mkClubScope { clubId : Z; clubTierIds : option (list Z) }.

Record ClubEntityAccess := mkClubEntityAccess {
  details_entityId : Z;
  details_entityType : EntityType;
  details_clubs : list ClubScope }.

Record Image := mkImage { image_id : option Z; image_url : string }.
Record CreatedImage := mkCreatedImage { created_id : Z; created_url : string }.

Record Services := mkServices {
  entityOwnership : Store → Z → list Entity → list EntityOwnership;
  entityRequiresClub : Store → list Entity → list ClubEntityAccess;
  getUserBuzzAccount : Z → BuzzAccountType → option BuzzAccount;
  createEntityImages : Z → list Image → list CreatedImage }.

Definition setEntityAccess (l : list EntityAccess) (s : Store) : Store :=
  mkStore (clubs s) (clubAdmins s) (clubTiers s) (clubMemberships s) l (availability s).

Definition setClubTiers (l : list ClubTier) (s : Store) : Store :=
  mkStore (clubs s) (clubAdmins s) l (clubMemberships s) (entityAccess s) (availability s).

Definition setClubs (l : list Club) (s : Store) : Store :=
  mkStore l (clubAdmins s) (clubTiers s) (clubMemberships s) (entityAccess s) (availability s).

Definition setAvailability (m : gmap (Z * EntityType) Availability) (s : Store) : Store :=
  mkStore (clubs s) (clubAdmins s) (clubTiers s) (clubMemberships s) (entityAccess s) m.

(** Modelled from the spec: [entityAvailabilityUpdate] of common.service is
    not part of the service file.  Section 6: a single external call
    [setAvailability(entityType, entityIds, Public|Private)] that sets the
    availability flag of the listed resources.  The service passes it no
    client, also where it calls it inside the callback of a transaction: its
    statement goes through [dbWrite]. *)
Definition entityAvailabilityUpdate {F} `{!Db F} (ty : EntityType) (entityIds : list Z)
    (av : Availability) : F unit :=
  execute DbWrite (λ s, setAvailability
                          (foldr (λ id m, <[(id, ty) := av]> m) (availability s) entityIds) s).

(** Modelled from the spec: [createBuzzTransaction] of buzz.service is not
    part of the service file.  Section 6: the ledger is a black box; the model
    records the call. *)
Definition createBuzzTransaction (t : BuzzTransaction) : M unit := emit (BuzzCall t).

(** ** upsertClubTiers *)

(** A value that may be [undefined], [null] or present. *)
Inductive Nullable (A : Type) := Undefined | Null | Present (a : A).
Arguments Undefined {A}.
Arguments Null {A}.
Arguments Present {A} a.

Record UpsertClubTierInput := mkUpsertClubTierInput {
  in_id : option Z;
  in_name : string;
  in_description : string;
  in_unitAmount : Z;
  in_currency : string;
  in_joinable : bool;
  in_unlisted : bool;
  in_memberLimit : option Z;
  in_coverImage : Nullable Image;
  in_clubId : option Z }.

(** [club?.admin?.permissions?.includes(p)] on the first contributing club. *)
Definition adminCan (userClub : option ContributingClub) (p : ClubAdminPermission) : bool :=
  match userClub ≫= cc_admin with
  | Some a => bool_decide (p ∈ admin_permissions a)
  | None => false
  end.

(** [memberships: { some: {} }]. *)
Definition hasMembers (s : Store) (t : ClubTier) : Prop :=
  filter (λ m, membership_clubTierId m = tier_id t) (clubMemberships s) ≠ [].

#[global] Instance hasMembers_dec s t : Decision (hasMembers s t).
Proof. unfold hasMembers. apply _. Defined.

(** [coverImage?.id ?? createdImages.find((i) => i.url === coverImage?.url)?.id] *)
Definition resolveCoverImageId (createdImages : list CreatedImage) (img : Nullable Image)
  : option Z :=
  match img with
  | Present i =>
      match image_id i with
      | Some id => Some id
      | None => created_id <$> head (filter (λ c, created_url c = image_url i) createdImages)
      end
  | _ => None
  end.

(** [tier.coverImage?.id === undefined] *)
Definition coverImageIdUndefined (img : Nullable Image) : bool :=
  match img with
  | Present i => bool_decide (image_id i = None)
  | _ => true
  end.

Definition nextTierId (ts : list ClubTier) : Z :=
  1 + foldr Z.max 0 (tier_id <$> ts).

(** One row of [clubTier.createMany({ data, skipDuplicates: true })]: the row
    takes the id it is given, or the next id of the sequence; a row whose id
    is taken is skipped. *)
Definition createTier (clubId : Z) (createdImages : list CreatedImage)
    (ts : list ClubTier) (t : UpsertClubTierInput) : list ClubTier :=
  let row id := mkClubTier id clubId (in_name t) (in_description t) (in_unitAmount t)
                  (in_currency t) (in_joinable t) (in_unlisted t) (in_memberLimit t)
                  (resolveCoverImageId createdImages (in_coverImage t)) in
  match in_id t with
  | Some id => if decide (id ∈ tier_id <$> ts) then ts else ts ++ [row id]
  | None => ts ++ [row (nextTierId ts)]
  end.

(** The data of [clubTier.update]: every column of the input but [id],
    [clubId] and the columns the input leaves [undefined], which are not
    written: the member limit and the cover image. *)
Definition updateTier (createdImages : list CreatedImage) (t : UpsertClubTierInput)
    (row : ClubTier) : ClubTier :=
  mkClubTier (tier_id row) (tier_clubId row) (in_name t) (in_description t) (in_unitAmount t)
    (in_currency t) (in_joinable t) (in_unlisted t)
    (match in_memberLimit t with
     | Some limit => Some limit
     | None => tier_memberLimit row
     end)
    (match in_coverImage t with
     | Null => None
     | Undefined => tier_coverImageId row
     | Present _ => resolveCoverImageId createdImages (in_coverImage t)
     end).

(** [Promise.all] over statements issued in order: every one runs, and the
    call throws when one of them threw. *)
Fixpoint promiseAll (acts : list (M unit)) : M unit :=
  match acts with
  | [] => mret tt
  | a :: rest =>
      λ w, match a w with
           | (Ok _, w') => promiseAll rest w'
           | (Throw e, w') => (Throw e, snd (promiseAll rest w'))
           end
  end.

Definition upsertClubTiers (svc : Services) (clubId : Z)
    (tiers : option (list UpsertClubTierInput)) (deleteTierIds : option (list Z))
    (tx : option Client) (userId : Z) (isModerator : bool) : M unit :=
  let dbClient := default DbWrite tx in
  userClubs ← query (userContributingClubs userId (Some [clubId]));
  let userClub := head userClubs in
  if bool_decide (Some userId ≠ cc_userId <$> userClub)
     && negb isModerator
     && negb (adminCan userClub ManageTiers)
  then throw BadRequestError
  else
    (if bool_decide (0 < length (default [] deleteTierIds))%nat then
       let ids := default [] deleteTierIds in
       deletingTierWithMembers ←
         query (λ s, head (filter (λ t, tier_id t ∈ ids ∧ hasMembers s t) (clubTiers s)));
       match deletingTierWithMembers with
       | Some _ => throw BadRequestError
       | None =>
           execute dbClient
             (λ s, setClubTiers (filter (λ t, tier_id t ∉ ids) (clubTiers s)) s)
       end
     else mret tt);;
    match tiers with
    | Some ((_ :: _) as tiers) =>
        let images :=
          omap (λ t, match in_coverImage t with Present i => Some i | _ => None end)
               (filter (λ t, coverImageIdUndefined (in_coverImage t)) tiers) in
        let createdImages := createEntityImages svc userId images in
        let toCreate := filter (λ t, negb (truthy (in_id t))) tiers in
        (if bool_decide (0 < length toCreate)%nat then
           execute dbClient
             (λ s, setClubTiers (foldl (createTier clubId createdImages) (clubTiers s) toCreate) s)
         else mret tt);;
        let toUpdate := filter (λ t, in_id t ≠ None) tiers in
        if bool_decide (0 < length toUpdate)%nat then
          promiseAll
            ((λ t,
               let id := default 0 (in_id t) in
               found ← query (λ s, bool_decide (id ∈ tier_id <$> clubTiers s));
               if found : bool then
                 execute dbClient
                   (λ s, setClubTiers
                           ((λ row, if decide (tier_id row = id)
                                    then updateTier createdImages t row else row)
                              <$> clubTiers s) s)
               else throw RecordNotFound) <$> toUpdate)
        else mret tt
    | _ => mret tt
    end.

(** ** getClubTiers *)

Record GetClubTiersInput := mkGetClubTiersInput {
  q_clubId : option Z;
  q_clubIds : option (list Z);
  q_listedOnly : option bool;
  q_joinableOnly : option bool;
  q_tierId : option Z }.

(** A returned tier with [_count.memberships]. *)
Record ClubTierView := mkClubTierView { view_tier : ClubTier; view_memberships : nat }.

(** [isModerator || (userClubIds.includes(clubId ?? -1) &&
     !(clubIds ?? []).some((c) => !userClubIds.includes(c)))] *)
Definition canViewAllTiers (isModerator : bool) (userClubIds : list Z)
    (clubId : option Z) (clubIds : option (list Z)) : bool :=
  isModerator
  || (bool_decide (default (-1) clubId ∈ userClubIds)
      && negb (existsb (λ c, negb (bool_decide (c ∈ userClubIds))) (default [] clubIds))).

(** The [listedOnly] and [joinableOnly] the query runs with. *)
Definition tierFilter (input : GetClubTiersInput) (userId : option Z) (isModerator : bool)
    (s : Store) : option bool * option bool :=
  let userClubs := if truthy userId
                   then userContributingClubs (default 0 userId) None s else [] in
  let userClubIds := cc_id <$> userClubs in
  if canViewAllTiers isModerator userClubIds (q_clubId input) (q_clubIds input)
  then (q_listedOnly input, q_joinableOnly input)
  else (Some true, Some true).

(** The [where] of the query: an [undefined] condition does not filter. *)
Definition tierWhere (input : GetClubTiersInput) (listedOnly joinableOnly : option bool)
    (t : ClubTier) : bool :=
  (if truthy (q_clubId input) then bool_decide (tier_clubId t = default 0 (q_clubId input))
   else match q_clubIds input with
        | Some ids => bool_decide (tier_clubId t ∈ ids)
        | None => true
        end)
  && match listedOnly with
     | Some l => bool_decide (tier_unlisted t = negb l)
     | None => true
     end
  && match joinableOnly with
     | Some j => bool_decide (tier_joinable t = j)
     | None => true
     end
  && (if truthy (q_tierId input) then bool_decide (tier_id t = default 0 (q_tierId input))
      else true).

(** [orderBy: { unitAmount: 'asc' }] *)
Definition byUnitAmount (a b : ClubTier) : Prop := tier_unitAmount a ≤ tier_unitAmount b.

#[global] Instance byUnitAmount_dec a b : Decision (byUnitAmount a b).
Proof. unfold byUnitAmount. apply _. Defined.

Definition getClubTiers (input : GetClubTiersInput) (userId : option Z) (isModerator : bool)
  : M (list ClubTierView) :=
  if negb (truthy (q_clubId input))
     && bool_decide (length (default [] (q_clubIds input)) = 0%nat)
  then mret []
  else
    filters ← query (tierFilter input userId isModerator);
    query (λ s,
      (λ t, mkClubTierView t
              (length (filter (λ m, membership_clubTierId m = tier_id t) (clubMemberships s))))
      <$> merge_sort byUnitAmount
            (filter (λ t, tierWhere input filters.1 filters.2 t) (clubTiers s))).

(** ** upsertClubResource, updateClubResource, removeClubResource *)

(** The [where] of the three [entityAccess.deleteMany]: the grants of the
    resource whose accessor is a club of [clubIds] or a tier of [tierIds]. *)
Definition accessInScope (e : Entity) (clubIds tierIds : list Z) (a : EntityAccess) : Prop :=
  accessToId a = entityId e ∧ accessToType a = entityType e
  ∧ ((accessorId a ∈ clubIds ∧ accessorType a = AccessorType.Club)
     ∨ (accessorId a ∈ tierIds ∧ accessorType a = AccessorType.ClubTier)).

#[global] Instance accessInScope_dec e clubIds tierIds a :
  Decision (accessInScope e clubIds tierIds a).
Proof. unfold accessInScope. apply _. Defined.

Definition deleteAccess (e : Entity) (clubIds tierIds : list Z) (s : Store) : Store :=
  setEntityAccess (filter (λ a, ¬ accessInScope e clubIds tierIds a) (entityAccess s)) s.

(** The table after an insert of [rows]. *)
Definition createAccess (rows : list EntityAccess) (s : Store) : Store :=
  setEntityAccess (entityAccess s ++ rows) s.

(** Modelled from the spec: the unique key of [EntityAccess] is declared in
    the database schema, which is not part of the service file.  Section 9
    speaks of the table's composite constraint, and the service deletes before
    it inserts because of it: one row per resource and accessor,
    [(accessToId, accessToType, accessorId, accessorType)]. *)
Definition accessKey (a : EntityAccess) : Z * EntityType * Z * AccessorType.t :=
  (accessToId a, accessToType a, accessorId a, accessorType a).

(** The rows can be inserted into a table holding [existing]: no two of them
    have the same key, and none has the key of an existing row. *)
Definition insertable (existing rows : list EntityAccess) : Prop :=
  NoDup (accessKey <$> rows)
  ∧ Forall (λ r, accessKey r ∉ accessKey <$> existing) rows.

#[global] Instance insertable_dec existing rows : Decision (insertable existing rows).
Proof. unfold insertable. apply _. Defined.

(** [tx.entityAccess.createMany({ data })] and [tx.entityAccess.create], both
    without [skipDuplicates]: the statement inserts every row, or throws on
    the key and inserts none. *)
Definition createMany (tx : Client) (rows : list EntityAccess) : MT unit :=
  existing ← query entityAccess;
  if decide (insertable existing rows)
  then execute tx (createAccess rows)
  else throw UniqueConstraintViolation.

Definition grant (e : Entity) (ty : AccessorType.t) (userId accessor : Z) : EntityAccess :=
  mkEntityAccess (entityId e) (entityType e) accessor ty userId.

(** [clubTier.findMany({ where: { clubId: { in: clubIds } } })] *)
Definition tiersOfClubs (clubIds : list Z) (s : Store) : list ClubTier :=
  filter (λ t, tier_clubId t ∈ clubIds) (clubTiers s).

(** [c.clubTierIds && c.clubTierIds.length] *)
Definition hasTierIds (c : ClubScope) : bool :=
  match clubTierIds c with
  | Some (_ :: _) => true
  | _ => false
  end.

(** [.map((c) => c.clubTierIds).filter(isDefined).flat()] *)
Definition flatTierIds (cs : list ClubScope) : list Z := mjoin (omap clubTierIds cs).

Definition getClubDetailsForResource (svc : Services) (entities : list Entity)
  : M (list ClubEntityAccess) :=
  query (λ s, entityRequiresClub svc s entities).

(** [!isModerator && !ownership.isOwner], where [ownership] is the first
    row of the resolver's answer: reading [isOwner] of a missing row is a
    [TypeError]. *)
Definition notOwnerNorModerator (svc : Services) (userId : Z) (isModerator : bool)
    (e : Entity) : M bool :=
  ownerships ← query (λ s, entityOwnership svc s userId [e]);
  if isModerator then mret false
  else match head ownerships with
       | Some ownership => mret (negb (isOwner ownership))
       | None => throw TypeError
       end.

Definition upsertClubResource (svc : Services) (userId : Z) (isModerator : bool)
    (e : Entity) (clubs : list ClubScope) : M unit :=
  denied ← notOwnerNorModerator svc userId isModerator e;
  if denied : bool then throw AuthorizationError
  else
    let clubIds := clubId <$> clubs in
    contributingClubs ← query (userContributingClubs userId (Some clubIds));
    if negb isModerator
       && existsb (λ c, negb (bool_decide (c ∈ cc_id <$> contributingClubs))) clubIds
    then throw AuthorizationError
    else
      clubTiers ← (if bool_decide (0 < length clubIds)%nat
                   then query (tiersOfClubs clubIds) else mret []);
      let clubTierIds := tier_id <$> clubTiers in
      if bool_decide (length clubIds = 0%nat) then
        (* this resource will be made public *)
        found ← getClubDetailsForResource svc [e];
        match head found with
        | None => throw TypeError
        | Some details =>
            execute DbWrite
              (deleteAccess e (clubId <$> details_clubs details)
                              (flatTierIds (details_clubs details)));;
            (* check that no other access exists *)
            access ← query (λ s, head (grantsOf s e));
            match access with
            | Some _ => mret tt
            | None => entityAvailabilityUpdate (entityType e) [entityId e] Public
            end
        end
      else
        transaction (λ tx,
          execute tx (deleteAccess e clubIds clubTierIds);;
          let generalClubAccess := filter (λ c, negb (hasTierIds c)) clubs in
          let tierClubAccess := filter (λ c, hasTierIds c) clubs in
          let clubAccessIds := clubId <$> generalClubAccess in
          let tierAccessIds := flatTierIds tierClubAccess in
          createMany tx (grant e AccessorType.Club userId <$> clubAccessIds);;
          createMany tx (grant e AccessorType.ClubTier userId <$> tierAccessIds);;
          entityAvailabilityUpdate (entityType e) [entityId e] Private).

Definition updateClubResource (svc : Services) (userId : Z) (isModerator : bool)
    (e : Entity) (clubId : Z) (clubTierIds : option (list Z)) : M unit :=
  denied ← notOwnerNorModerator svc userId isModerator e;
  if denied : bool then throw AuthorizationError
  else
    contributingClubs ← query (userContributingClubs userId (Some [clubId]));
    if negb isModerator && negb (bool_decide (clubId ∈ cc_id <$> contributingClubs))
    then throw AuthorizationError
    else
      clubTiers ← query (tiersOfClubs [clubId]);
      let allClubTierIds := tier_id <$> clubTiers in
      transaction (λ tx,
        execute tx (deleteAccess e [clubId] allClubTierIds);;
        let isGeneralClubAccess := bool_decide (length (default [] clubTierIds) = 0%nat) in
        if isGeneralClubAccess then
          createMany tx [grant e AccessorType.Club userId clubId]
        else
          createMany tx (grant e AccessorType.ClubTier userId <$> default [] clubTierIds)).

(** [isModerator || ownership.isOwner || userClub?.userId === userId ||
     userClub.admin?.permissions.includes(ClubAdminPermission.ManageResources)],
    evaluated left to right: [ownership.isOwner] and [userClub.admin] read
    a property of a value that may be [undefined]. *)
Definition canRemoveResource (svc : Services) (userId : Z) (isModerator : bool)
    (e : Entity) (clubId : Z) : M bool :=
  userClubs ← query (userContributingClubs userId (Some [clubId]));
  let userClub := head userClubs in
  ownerships ← query (λ s, entityOwnership svc s userId [e]);
  if isModerator then mret true
  else match head ownerships with
       | None => throw TypeError
       | Some ownership =>
           if isOwner ownership then mret true
           else if bool_decide (cc_userId <$> userClub = Some userId) then mret true
           else match userClub with
                | None => throw TypeError
                | Some club =>
                    mret (match cc_admin club with
                          | Some a => bool_decide (ManageResources ∈ admin_permissions a)
                          | None => false
                          end)
                end
       end.

Definition removeClubResource (svc : Services) (userId : Z) (isModerator : bool)
    (e : Entity) (clubId : Z) : M unit :=
  allowed ← canRemoveResource svc userId isModerator e clubId;
  if negb allowed then throw AuthorizationError
  else
    clubTiers ← query (tiersOfClubs [clubId]);
    let clubTierIds := tier_id <$> clubTiers in
    transaction (λ tx,
      execute tx (deleteAccess e [clubId] clubTierIds);;
      (* check if it still requires club access *)
      access ← query (λ s, head (grantsOf s e));
      match access with
      | Some _ => mret tt
      | None => entityAvailabilityUpdate (entityType e) [entityId e] Public
      end).

(** ** deleteClub *)

(** [club.findUniqueOrThrow({ where: { id } })] *)
Definition getClub (id : Z) : M Club :=
  found ← query (λ s, head (filter (λ c, club_id c = id) (clubs s)));
  match found with
  | Some club => mret club
  | None => throw RecordNotFound
  end.

Definition deleteClub (svc : Services) (id userId : Z) (isModerator : bool) : M Club :=
  club ← getClub id;
  if bool_decide (club_userId club ≠ userId) && negb isModerator
  then throw BadRequestError
  else
    let buzzAccount := getUserBuzzAccount svc (club_id club) AccountClub in
    (match buzzAccount ≫= balance with
     | Some b =>
         if bool_decide (0 < b) then
           createBuzzTransaction
             (mkBuzzTransaction (club_userId club) (club_id club) AccountClub Tip b)
         else mret tt
     | None => mret tt
     end);;
    execute DbWrite (λ s, setClubs (filter (λ c, club_id c ≠ id) (clubs s)) s);;
    mret club.

(** ** The resource lookup and a concrete set of collaborators *)

(** Modelled from the spec: [entityRequiresClub] of common.service is not
    part of the service file.  Section 4.4: for a batch of resources, it
    returns each resource's current club ids and, per club, the tier ids gating
    it, grouped per club.  A club gates a resource through a [Club] grant or
    through a [ClubTier] grant on one of its tiers. *)
Definition specEntityRequiresClub (s : Store) (entities : list Entity)
  : list ClubEntityAccess :=
  (λ e,
     let grants := grantsOf s e in
     let clubGrantIds :=
       accessorId <$> filter (λ a, accessorType a = AccessorType.Club) grants in
     let tierGrantIds :=
       accessorId <$> filter (λ a, accessorType a = AccessorType.ClubTier) grants in
     let tierClubIds :=
       tier_clubId <$> filter (λ t, tier_id t ∈ tierGrantIds) (clubTiers s) in
     mkClubEntityAccess (entityId e) (entityType e)
       ((λ c, mkClubScope c
                (Some (tier_id <$> filter (λ t, tier_clubId t = c ∧ tier_id t ∈ tierGrantIds)
                                          (clubTiers s))))
          <$> remove_dups (clubGrantIds ++ tierClubIds))) <$> entities.

(** Collaborators for the worked scenarios: ownership read from a table of
    [(resource, owner)] pairs, the lookup of Section 4.4, club ledger accounts
    read from a table of [(club id, balance)] pairs, and an image service that
    numbers the images it stores from 1. *)
Definition tableServices (owners : list (Entity * Z)) (accounts : list (Z * Z)) : Services :=
  mkServices
    (λ _ userId entities,
       (λ e, mkEntityOwnership (entityId e) (entityType e)
               (bool_decide ((e, userId) ∈ owners))) <$> entities)
    specEntityRequiresClub
    (λ accountId accountType,
       match accountType with
       | AccountClub =>
           (λ p, mkBuzzAccount (Some p.2)) <$> head (filter (λ p, p.1 = accountId) accounts)
       | AccountUser => None
       end)
    (λ _ images,
       (λ p, mkCreatedImage (Z.of_nat (S p.1)) (image_url p.2)) <$> imap pair images).

(** ** Who may act *)

(** The caller owns the resource or is a moderator: the first guard of
    [upsertClubResource] and [updateClubResource]. *)
Definition mayGate (svc : Services) (userId : Z) (isModerator : bool) (e : Entity)
    (s : Store) : Prop :=
  isModerator = true
  ∨ ∃ o, head (entityOwnership svc s userId [e]) = Some o ∧ isOwner o = true.

(** The caller is a contributing member of every listed club, or a
    moderator: the second guard. *)
Definition contributesToAll (userId : Z) (isModerator : bool) (clubIds : list Z)
    (s : Store) : Prop :=
  isModerator = true
  ∨ ∀ c, c ∈ clubIds → c ∈ cc_id <$> userContributingClubs userId (Some clubIds) s.

(** The caller neither owns the club nor has an admin row in it. *)
Definition strangerTo (userId clubId : Z) (s : Store) : Prop :=
  (∀ c, c ∈ clubs s → club_id c = clubId → club_userId c ≠ userId)
  ∧ (∀ a, a ∈ clubAdmins s → admin_clubId a = clubId → admin_userId a ≠ userId).

(** ** The rows and the flag a grant writes *)

Definition isGrantOf (e : Entity) (a : EntityAccess) : Prop :=
  accessToId a = entityId e ∧ accessToType a = entityType e.

(** The rows [upsertClubResource] inserts for a non-empty request. *)
Definition requestedGrants (e : Entity) (userId : Z) (cs : list ClubScope)
  : list EntityAccess :=
  (grant e AccessorType.Club userId <$> (clubId <$> filter (λ c, negb (hasTierIds c)) cs))
  ++ (grant e AccessorType.ClubTier userId <$> flatTierIds (filter (λ c, hasTierIds c) cs)).

Definition markAvailability (e : Entity) (av : Availability) (s : Store) : Store :=
  setAvailability (<[entity_key e := av]> (availability s)) s.

(** The key lets the rows of a request in, once the id-space of the
    requested clubs is cleared: no row is requested twice, and no requested
    row is a row that the delete leaves in the table. *)
Definition requestInsertable (e : Entity) (userId : Z) (cs : list ClubScope) (s : Store)
  : Prop :=
  let clubIds := clubId <$> cs in
  insertable (entityAccess (deleteAccess e clubIds (tier_id <$> tiersOfClubs clubIds s) s))
             (requestedGrants e userId cs).

#[global] Instance requestInsertable_dec e userId cs s :
  Decision (requestInsertable e userId cs s).
Proof. unfold requestInsertable. apply _. Defined.

(** ** Entitlement engine: the empty club list *)

(** The club a grant row belongs to: the club itself for a [Club] row, the
    club of the tier for a [ClubTier] row. *)
Definition grantOfClub (s : Store) (a : EntityAccess) (c : Z) : Prop :=
  (accessorType a = AccessorType.Club ∧ accessorId a = c)
  ∨ (accessorType a = AccessorType.ClubTier
     ∧ ∃ t, t ∈ clubTiers s ∧ tier_id t = accessorId a ∧ tier_clubId t = c).

(** The reading of the empty-list case under which only the caller's own
    clubs lose their grants: every row the call removes belongs to a club the
    caller contributes to. *)
Definition removesOnlyOwnClubs (svc : Services) (userId : Z) (isModerator : bool)
    (e : Entity) (w : World) : Prop :=
  let w' := (upsertClubResource svc userId isModerator e [] w).2 in
  ∀ a, a ∈ entityAccess (store w) → a ∉ entityAccess (store w') →
       ∃ c, grantOfClub (store w) a c
            ∧ c ∈ cc_id <$> userContributingClubs userId None (store w).

(** ** The availability invariant *)

(** A resource is [Public] exactly when it has no grant of any accessor
    type. *)
Definition availabilityInvariant (s : Store) : Prop :=
  ∀ e, availabilityOf s e = Public ↔ grantsOf s e = [].

(** ** Worked scenario

    Club A (id 10, owned by user 1) has the tiers T1 (listed) and T2
    (unlisted); club B (id 20, owned by user 2) has the tier T3.  User 1 owns
    the resource R; user 3 owns nothing and administers nothing.  Club A's
    ledger account holds 500, club B's holds 0. *)

Definition resourceR : Entity := mkEntity 100 ModelVersion.

Definition clubA : Club := mkClub 10 1 "A".
Definition clubB : Club := mkClub 20 2 "B".

Definition tierT1 : ClubTier := mkClubTier 1 10 "T1" "first tier" 10 "BUZZ" true false None None.
Definition tierT2 : ClubTier := mkClubTier 2 10 "T2" "second tier" 20 "BUZZ" true true None None.
Definition tierT3 : ClubTier := mkClubTier 3 20 "T3" "only tier" 5 "BUZZ" true false None None.

Definition scenarioServices : Services := tableServices [(resourceR, 1)] [(10, 500); (20, 0)].

Definition scenarioStore (memberships : list ClubMembership) (grants : list EntityAccess)
    (av : Availability) : Store :=
  mkStore [clubA; clubB] [] [tierT1; tierT2; tierT3] memberships grants
          {[ entity_key resourceR := av ]}.

(** R is public and has no grant. *)
Definition publicWorld : World := mkWorld (scenarioStore [] [] Public) [].

(** R is gated by club A alone, at club level. *)
Definition gatedByA : World :=
  mkWorld (scenarioStore [] [grant resourceR AccessorType.Club 1 10] Private) [].

(** R is gated by tier T1 of club A. *)
Definition gatedByT1 : World :=
  mkWorld (scenarioStore [] [grant resourceR AccessorType.ClubTier 1 1] Private) [].

(** R is gated by club B alone, through a row added by user 2. *)
Definition gatedByB : World :=
  mkWorld (scenarioStore [] [grant resourceR AccessorType.Club 2 20] Private) [].

(** User 7 is a member of tier T1. *)
Definition withMember : World :=
  mkWorld (scenarioStore [mkClubMembership 7 1] [] Public) [].

(** A tier request that creates one tier and updates a tier that does not
    exist. *)
Definition newTier : UpsertClubTierInput :=
  mkUpsertClubTierInput None "N" "new tier" 7 "BUZZ" true false None Undefined None.

Definition missingTier : UpsertClubTierInput :=
  mkUpsertClubTierInput (Some 99) "X" "no such tier" 1 "BUZZ" true false None Undefined None.

(** ** The clubs of a tier query *)

(** The clubs a call to [getClubTiers] queries: [clubId] when it is given,
    else [clubIds]. *)
Definition queriedClubs (input : GetClubTiersInput) : list Z :=
  if truthy (q_clubId input) then [default 0 (q_clubId input)]
  else default [] (q_clubIds input).

(** The clubs the caller contributes to, as [getClubTiers] computes them. *)
Definition contributingIds (userId : option Z) (s : Store) : list Z :=
  cc_id <$> (if truthy userId then userContributingClubs (default 0 userId) None s else []).

(** ** Tactics for concrete data *)

(** Settles a decidable proposition about concrete data by running its
    decision procedure. *)
Ltac by_compute := apply (bool_decide_unpack _); vm_compute; exact I.

(** Splits a membership in a concrete list into its cases. *)
Ltac each_member H :=
  cbn in H; repeat (apply elem_of_cons in H as [->|H]); [.. | by apply elem_of_nil in H].

(** The reading of C7 under which the permission guard of [upsertClubTiers]
    raises [AuthorizationError] and writes nothing. *)
Definition tierGuardRaisesAuthorizationError (svc : Services) (clubId userId : Z)
    (w : World) : Prop :=
  (∀ c, c ∈ clubs (store w) → club_id c = clubId → club_userId c ≠ userId) →
  (∀ a, a ∈ clubAdmins (store w) → admin_clubId a = clubId → admin_userId a = userId →
        ManageTiers ∉ admin_permissions a) →
  upsertClubTiers svc clubId None None None userId false w = (Throw AuthorizationError, w).

(** ** upsertClub, updateClub, createClub

    The store keeps the columns [id], [userId] and [name] of a club.  The
    other columns an [UpsertClubInput] carries (description, flags, and the
    ids of the images that [createEntityImages] stores) are written to
    columns the store does not keep. *)

Record UpsertClubInput := mkUpsertClubInput {
  uc_id : option Z;
  uc_name : string;
  uc_coverImage : Nullable Image;
  uc_headerImage : Nullable Image;
  uc_avatar : Nullable Image;
  uc_tiers : option (list UpsertClubTierInput);
  uc_deleteTierIds : option (list Z) }.

(** [club.findUniqueOrThrow({ where: { id } })] followed by
    [club.update({ where: { id }, data })]: [data] has no [userId], the owner
    stays.  The function is typed for inputs without [tiers] and
    [deleteTierIds]; what the ORM does with an input that carries them is not
    modelled. *)
Definition updateClub (svc : Services) (id userId : Z) (input : UpsertClubInput) : M Club :=
  transaction (λ tx,
    found ← query (λ s, head (filter (λ c, club_id c = id) (clubs s)));
    match found with
    | None => throw RecordNotFound
    | Some old =>
        let club := mkClub (club_id old) (club_userId old) (uc_name input) in
        execute tx (λ s, setClubs ((λ c, if decide (club_id c = id) then club else c)
                                     <$> clubs s) s);;
        mret club
    end).

Definition nextClubId (cs : list Club) : Z :=
  1 + foldr Z.max 0 (club_id <$> cs).

(** [club.create] and then [upsertClubTiers] on the new club, through the
    same transaction client; [tiers] and [deleteTierIds] default to the empty
    list. *)
Definition createClub (svc : Services) (userId : Z) (input : UpsertClubInput) : M Club :=
  transaction (λ tx,
    club ← query (λ s, mkClub (nextClubId (clubs s)) userId (uc_name input));
    execute tx (λ s, setClubs (clubs s ++ [club]) s);;
    onView (upsertClubTiers svc (club_id club) (Some (default [] (uc_tiers input)))
                            (Some (default [] (uc_deleteTierIds input))) (Some tx) userId
                            false);;
    mret club).

(** The permission of [upsertClub] is read off the first club of
    [userContributingClubs({ userId })]; [club.userId] on a missing club is a
    [TypeError]. *)
Definition upsertClub (svc : Services) (isModerator : bool) (userId : Z)
    (input : UpsertClubInput) : M Club :=
  if truthy (uc_id input) then
    userClubs ← query (userContributingClubs userId None);
    match head userClubs with
    | None => if negb isModerator then throw AuthorizationError else throw TypeError
    | Some club =>
        let isOwner := bool_decide (cc_userId club = userId) in
        let canManageClub :=
          match cc_admin club with
          | Some a => bool_decide (ManageClub ∈ admin_permissions a)
          | None => false
          end in
        if negb isOwner && negb canManageClub && negb isModerator
        then throw AuthorizationError
        else updateClub svc (default 0 (uc_id input)) userId input
    end
  else createClub svc userId input.

(** ** More of the worked scenario *)

(** The scenario with admin rows: user 4 administers club A with no
    permission, user 5 with [ManageResources], user 6 with [ManageTiers];
    user 1 has an admin row without permissions in club B. *)
Definition scenarioAdmins : list ClubAdmin :=
  [mkClubAdmin 10 4 []; mkClubAdmin 10 5 [ManageResources]; mkClubAdmin 10 6 [ManageTiers];
   mkClubAdmin 20 1 []].

Definition adminStore (grants : list EntityAccess) (av : Availability) : Store :=
  mkStore [clubA; clubB] scenarioAdmins [tierT1; tierT2; tierT3] [] grants
          {[ entity_key resourceR := av ]}.

(** R is public, with the admin rows. *)
Definition publicWithAdmins : World := mkWorld (adminStore [] Public) [].

(** R is gated by club A, with the admin rows. *)
Definition gatedByAWithAdmins : World :=
  mkWorld (adminStore [grant resourceR AccessorType.Club 1 10] Private) [].

(** R is gated by club A and unlocked for user 9 directly. *)
Definition gatedByAAndUser : World :=
  mkWorld (scenarioStore [] [grant resourceR AccessorType.Club 1 10;
                             grant resourceR AccessorType.User 1 9] Private) [].

(** A second resource, owned by user 2 and gated by club B. *)
Definition resourceS : Entity := mkEntity 200 Article.

Definition twoResources : World :=
  mkWorld (mkStore [clubA; clubB] [] [tierT1; tierT2; tierT3] []
             [grant resourceS AccessorType.Club 2 20]
             {[ entity_key resourceR := Public; entity_key resourceS := Private ]}) [].

Definition renameTo (id : option Z) (name : string) : UpsertClubInput :=
  mkUpsertClubInput id name Undefined Undefined Undefined None None.

(** ** Frames *)

(** [s'] differs from [s] at most in the [Club] and [ClubTier] grants of the
    resource [e] and in its availability: the other tables are the same, every
    row that is not a club or tier grant of [e] is still there, and the grants
    and the availability of every other resource are the same. *)
Definition touchesOnly (e : Entity) (s s' : Store) : Prop :=
  clubs s' = clubs s ∧ clubAdmins s' = clubAdmins s
  ∧ clubTiers s' = clubTiers s ∧ clubMemberships s' = clubMemberships s
  ∧ (∀ a, a ∈ entityAccess s →
          ¬ isGrantOf e a ∨ accessorType a = AccessorType.User →
          a ∈ entityAccess s')
  ∧ (∀ e', e' ≠ e →
           grantsOf s' e' = grantsOf s e' ∧ availabilityOf s' e' = availabilityOf s e').

(** ** Who may edit tiers *)

(** The caller passes the permission guard of [upsertClubTiers]: a
    moderator, or a caller whose first contributing-club row for the club
    shows them as owner or carries an admin entry with [ManageTiers]. *)
Definition mayEditTiers (userId : Z) (isModerator : bool) (clubId : Z) (s : Store) : Prop :=
  isModerator = true
  ∨ ∃ uc, head (userContributingClubs userId (Some [clubId]) s) = Some uc
          ∧ (cc_userId uc = userId
             ∨ ∃ a, cc_admin uc = Some a ∧ ManageTiers ∈ admin_permissions a).

(** The trace a statement run through client [c] leaves when it commits
    store [s]. *)
Definition committed (c : Client) (w : World) (s : Store) : list Event :=
  match c with
  | DbWrite => trace w ++ [Commit s]
  | Tx => trace w
  end.

(** A tier input without id that names club B as its club, and an update
    of tier T3. *)
Definition tierForB : UpsertClubTierInput :=
  mkUpsertClubTierInput None "guest" "sent for club B" 3 "BUZZ" true false None Undefined
                        (Some 20).

Definition repriceT3 : UpsertClubTierInput :=
  mkUpsertClubTierInput (Some 3) "T3" "only tier" 50 "BUZZ" true false None Undefined None.

(** ** What a tier edit may write *)

(** [w'] differs from [w] at most in the tier table and, for statements
    issued through [dbWrite], in the commits added to the trace. *)
Definition tiersOnly (c : Client) (w w' : World) : Prop :=
  clubs (store w') = clubs (store w)
  ∧ clubAdmins (store w') = clubAdmins (store w)
  ∧ clubMemberships (store w') = clubMemberships (store w)
  ∧ entityAccess (store w') = entityAccess (store w)
  ∧ availability (store w') = availability (store w)
  ∧ (c = Tx → trace w' = trace w).

Definition writesTiersOnly {A} (c : Client) (m : M A) : Prop :=
  ∀ w, tiersOnly c w (m w).2.

(** * Theorems *)

(** ** Running a computation *)

Lemma run_bind {A B} (m : M A) (k : A → M B) (w : World) :
  (m ≫= k) w = match m w with
               | (Ok a, w') => k a w'
               | (Throw e, w') => (Throw e, w')
               end.
Proof. reflexivity. Qed.

Lemma run_query {A B} (f : Store → A) (k : A → M B) (w : World) :
  (query f ≫= k) w = k (f (store w)) w.
Proof. reflexivity. Qed.

Lemma run_ret {A B} (a : A) (k : A → M B) (w : World) :
  (mret a ≫= k) w = k a w.
Proof. reflexivity. Qed.

Lemma run_execute {B} (c : Client) (f : Store → Store) (k : unit → M B) (w : World) :
  (execute c f ≫= k) w
  = k tt (mkWorld (f (store w))
                  (match c with
                   | DbWrite => trace w ++ [Commit (f (store w))]
                   | Tx => trace w
                   end)).
Proof. reflexivity. Qed.

Lemma tx_bind {A B} (m : MT A) (k : A → MT B) (t : TxWorld) :
  (m ≫= k) t = match m t with
               | (Ok a, t') => k a t'
               | (Throw e, t') => (Throw e, t')
               end.
Proof. reflexivity. Qed.

Lemma tx_query {A B} (f : Store → A) (k : A → MT B) (t : TxWorld) :
  (query f ≫= k) t = k (f (view t)) t.
Proof. reflexivity. Qed.

Lemma tx_execute {B} (f : Store → Store) (k : unit → MT B) (t : TxWorld) :
  (execute Tx f ≫= k) t = k tt (mkTxWorld (outside t) (f (view t))).
Proof. reflexivity. Qed.

Lemma createMany_run (rows : list EntityAccess) (t : TxWorld) :
  createMany Tx rows t
  = if decide (insertable (entityAccess (view t)) rows)
    then (Ok tt, mkTxWorld (outside t) (createAccess rows (view t)))
    else (Throw UniqueConstraintViolation, t).
Proof.
  unfold createMany. rewrite tx_query. by destruct (decide _).
Qed.

Lemma tx_createMany {B} (rows : list EntityAccess) (k : unit → MT B) (t : TxWorld) :
  (createMany Tx rows ≫= k) t
  = if decide (insertable (entityAccess (view t)) rows)
    then k tt (mkTxWorld (outside t) (createAccess rows (view t)))
    else (Throw UniqueConstraintViolation, t).
Proof.
  rewrite tx_bind, createMany_run. by destruct (decide _).
Qed.

(** A transaction whose body only runs a function on the view commits what
    the function leaves, or nothing. *)
Lemma transaction_onView {A} (body : Client → M A) (w : World) :
  transaction (λ tx, onView (body tx)) w
  = match body Tx w with
    | (Ok a, w') => (Ok a, mkWorld (store w') (trace w' ++ [Commit (store w')]))
    | (Throw e, w') => (Throw e, mkWorld (store w) (trace w'))
    end.
Proof.
  unfold transaction, onView. destruct w as [s tr]. cbn [view outside store trace].
  by destruct (body Tx _) as [[a|err] w'].
Qed.

(** Inserting [r1] and then [r2] goes through exactly when inserting them
    together does. *)
Lemma insertable_app (existing r1 r2 : list EntityAccess) :
  insertable existing (r1 ++ r2)
  ↔ insertable existing r1 ∧ insertable (existing ++ r1) r2.
Proof.
  unfold insertable. rewrite !fmap_app, NoDup_app, !Forall_forall. split.
  - intros [(Hd1 & Hcross & Hd2) Hnew]. split_and!; try done.
    + intros r Hr. apply Hnew, elem_of_app. by left.
    + intros r Hr [Hin|Hin]%elem_of_app.
      * apply (Hnew r); [apply elem_of_app; by right | done].
      * apply (Hcross _ Hin). apply list_elem_of_fmap. by exists r.
  - intros [[Hd1 Hnew1] [Hd2 Hnew2]]. split_and!; try done.
    + intros k Hk1 (r & -> & Hr)%list_elem_of_fmap.
      apply (Hnew2 r Hr), elem_of_app. by right.
    + intros r [Hr|Hr]%elem_of_app; [by apply Hnew1|].
      intros Hin. apply (Hnew2 r Hr), elem_of_app. by left.
Qed.

(** Rows that lie in the id-space that was deleted meet no row that is
    left. *)
Lemma insertable_after_delete e clubIds tierIds (old rows : list EntityAccess) :
  (∀ a, a ∈ rows → accessInScope e clubIds tierIds a) →
  insertable (filter (λ a, ¬ accessInScope e clubIds tierIds a) old) rows
  ↔ NoDup (accessKey <$> rows).
Proof.
  intros Hscope. unfold insertable. split; [by intros [? _]|]. intros Hdup.
  split; [done|]. apply Forall_forall. intros r Hr (a & Hkey & Ha)%list_elem_of_fmap.
  apply list_elem_of_filter in Ha as [Hout _]. apply Hout.
  specialize (Hscope r Hr). unfold accessInScope, accessKey in *.
  injection Hkey as H1 H2 H3 H4. by rewrite <- H1, <- H2, <- H3, <- H4.
Qed.

Lemma head_filter_None {A} (P : A → Prop) `{!∀ x, Decision (P x)} (l : list A) (x : A) :
  head (filter P l) = None → x ∈ l → ¬ P x.
Proof.
  intros Hhead Hin HP.
  assert (Hx : x ∈ filter P l) by (apply list_elem_of_filter; done).
  destruct (filter P l); [by apply elem_of_nil in Hx | discriminate].
Qed.

Lemma head_filter_Some {A} (P : A → Prop) `{!∀ x, Decision (P x)} (l : list A) (x : A) :
  head (filter P l) = Some x → x ∈ l ∧ P x.
Proof.
  intros Hhead. apply head_Some_elem_of in Hhead.
  apply list_elem_of_filter in Hhead. tauto.
Qed.

Lemma filter_none {A} (P : A → Prop) `{!∀ x, Decision (P x)} (l : list A) :
  (∀ x, x ∈ l → ¬ P x) → filter P l = [].
Proof.
  intros Hnone. destruct (filter P l) as [|x l'] eqn:Hf; [done|].
  assert (Hx : x ∈ filter P l) by (rewrite Hf; apply list_elem_of_here).
  apply list_elem_of_filter in Hx as [HP Hx]. by destruct (Hnone x Hx).
Qed.

(** ** Tier registry: the guards of upsertClubTiers *)

Section TierGuards.
Context (svc : Services) (clubId : Z) (tiers : option (list UpsertClubTierInput))
        (tx : option Client) (userId : Z) (w : World).

(** C6. When [deleteTierIds] names a tier that has a membership row, the
    call throws [BadRequestError] and the world it leaves is the world it
    started from: no tier is deleted, named or not, with members or without,
    and no membership row changes.  This holds for every caller, since the
    permission guard before it throws the same error. *)
Theorem upsertClubTiers_delete_guard (isModerator : bool) (ids : list Z) (t : ClubTier) :
  t ∈ clubTiers (store w) →
  tier_id t ∈ ids →
  hasMembers (store w) t →
  upsertClubTiers svc clubId tiers (Some ids) tx userId isModerator w
  = (Throw BadRequestError, w).
Proof.
  intros Ht Hid Hmem. unfold upsertClubTiers. rewrite run_query.
  destruct (_ && _ && _); [reflexivity|].
  rewrite run_bind.
  assert (Hlen : (0 < length (default [] (Some ids)))%nat).
  { destruct ids; [by apply elem_of_nil in Hid | simpl; lia]. }
  rewrite bool_decide_true by exact Hlen. rewrite run_query.
  destruct (head (filter _ (clubTiers (store w)))) eqn:Hhead; [reflexivity|].
  exfalso. eapply head_filter_None; [exact Hhead | exact Ht | done].
Qed.

(** C7, as the service does it.  A caller who is not the owner of the club,
    not a moderator, and has no admin row with [ManageTiers] for it is turned
    away by the permission guard, whatever the request: the call throws
    [BadRequestError] (the guard calls [throwBadRequestError]) and the world
    is left as it was. *)
Theorem upsertClubTiers_guard_rejects (deleteTierIds : option (list Z)) :
  (∀ c, c ∈ clubs (store w) → club_id c = clubId → club_userId c ≠ userId) →
  (∀ a, a ∈ clubAdmins (store w) → admin_clubId a = clubId → admin_userId a = userId →
        ManageTiers ∉ admin_permissions a) →
  upsertClubTiers svc clubId tiers deleteTierIds tx userId false w
  = (Throw BadRequestError, w).
Proof.
  intros Howner Hadmin. unfold upsertClubTiers. rewrite run_query.
  set (userClub := head (userContributingClubs userId (Some [clubId]) (store w))).
  assert (Hguard : bool_decide (Some userId ≠ cc_userId <$> userClub)
                   && negb false && negb (adminCan userClub ManageTiers) = true);
    [|by rewrite Hguard].
  destruct userClub as [uc|] eqn:Huc; subst userClub; last first.
  { done. }
  apply head_Some_elem_of in Huc. unfold userContributingClubs in Huc.
  apply list_elem_of_fmap in Huc as (c & -> & Hc).
  apply list_elem_of_filter in Hc as [[Hid _] Hc]. simpl in Hid.
  apply list_elem_of_singleton in Hid.
  rewrite !andb_true_iff. split_and!.
  - apply bool_decide_eq_true. simpl. intros [= Heq]. by eapply Howner.
  - done.
  - apply negb_true_iff. unfold adminCan. simpl.
    destruct (head (adminsOf (store w) userId (club_id c))) as [a|] eqn:Ha; [|done].
    apply head_filter_Some in Ha as [Ha [Hac Hau]].
    apply bool_decide_eq_false. apply Hadmin; congruence.
Qed.
End TierGuards.

Lemma stranger_contributes_nothing userId clubId s :
  strangerTo userId clubId s → userContributingClubs userId (Some [clubId]) s = [].
Proof.
  intros [Howner Hadmin]. unfold userContributingClubs.
  rewrite filter_none; [done|].
  intros c Hc [Hid Hrole]. simpl in Hid.
  apply list_elem_of_singleton in Hid.
  destruct Hrole as [Hrole|Hrole]; [by eapply Howner|].
  apply Hrole. unfold adminsOf. apply filter_none.
  intros a Ha [Hac Hau]. eapply Hadmin; [exact Ha| congruence | done].
Qed.

Lemma notOwnerNorModerator_allows svc userId isModerator e w :
  mayGate svc userId isModerator e (store w) →
  notOwnerNorModerator svc userId isModerator e w = (Ok false, w).
Proof.
  intros Hgate. unfold notOwnerNorModerator. rewrite run_query.
  destruct isModerator; [reflexivity|].
  destruct Hgate as [|(o & -> & ->)]; [discriminate | reflexivity].
Qed.

Lemma contributing_guard_passes userId isModerator clubIds s :
  contributesToAll userId isModerator clubIds s →
  negb isModerator
  && existsb (λ c, negb (bool_decide (c ∈ cc_id <$> userContributingClubs userId (Some clubIds) s)))
             clubIds = false.
Proof.
  intros [->|Hall]; [reflexivity|].
  apply andb_false_iff. right. apply not_true_iff_false.
  intros (c & Hc & Hneg)%existsb_exists.
  apply negb_true_iff, bool_decide_eq_false in Hneg.
  apply Hneg, Hall. by apply list_elem_of_In.
Qed.

(** ** removeClubResource and deleteClub *)

(** C10. A caller who is not a moderator, does not own the resource and has
    no contributing-club row for [clubId] does not reach the
    [AuthorizationError] of the guard: the read of [userClub.admin] on the
    missing club record throws [TypeError] first.  The world is left as it
    was. *)
Theorem removeClubResource_stranger_TypeError (svc : Services) (userId : Z) (e : Entity)
    (clubId : Z) (w : World) :
  (∀ o, head (entityOwnership svc (store w) userId [e]) = Some o → isOwner o = false) →
  strangerTo userId clubId (store w) →
  removeClubResource svc userId false e clubId w = (Throw TypeError, w).
Proof.
  intros Hown Hstranger. unfold removeClubResource, canRemoveResource.
  rewrite run_bind, !run_query.
  rewrite (stranger_contributes_nothing _ _ _ Hstranger).
  destruct (head (entityOwnership svc (store w) userId [e])) as [o|] eqn:Ho; [|reflexivity].
  rewrite (Hown o eq_refl). reflexivity.
Qed.

(** C9. [deleteClub] called by the club's owner or by a moderator: with a
    positive balance on the club's account, the run issues one ledger
    transaction, of the whole balance, from the club's account to the owner,
    and then commits the store without the club row; with no account, no
    balance or a balance that is not positive, the run only commits the store
    without the club row. *)
Theorem deleteClub_refunds_balance (svc : Services) (id userId : Z) (isModerator : bool)
    (w : World) (club : Club) :
  head (filter (λ c, club_id c = id) (clubs (store w))) = Some club →
  club_userId club = userId ∨ isModerator = true →
  let s' := setClubs (filter (λ c, club_id c ≠ id) (clubs (store w))) (store w) in
  let account := getUserBuzzAccount svc id AccountClub ≫= balance in
  (∀ b, account = Some b → 0 < b →
        deleteClub svc id userId isModerator w
        = (Ok club,
           mkWorld s' (trace w ++ [BuzzCall (mkBuzzTransaction (club_userId club) id
                                               AccountClub Tip b);
                                   Commit s'])))
  ∧ (account = None ∨ (∃ b, account = Some b ∧ b ≤ 0) →
     deleteClub svc id userId isModerator w
     = (Ok club, mkWorld s' (trace w ++ [Commit s']))).
Proof.
  intros Hclub Hauth s' account.
  assert (Hid : club_id club = id) by (by apply head_filter_Some in Hclub as [_ ?]).
  assert (Hguard : bool_decide (club_userId club ≠ userId) && negb isModerator = false).
  { destruct Hauth as [->| ->]; [|by rewrite andb_false_r].
    by rewrite bool_decide_false by (intros ?; done). }
  assert (Hrun : ∀ k : Club → M Club, (getClub id ≫= k) w = k club w).
  { intros k. unfold getClub. rewrite run_bind, run_query, Hclub. reflexivity. }
  split.
  - intros b Hb Hpos. unfold deleteClub. rewrite Hrun, Hguard, Hid.
    fold account. rewrite Hb, run_bind, bool_decide_true by done.
    unfold createBuzzTransaction, emit. rewrite run_execute. cbn.
    rewrite <- app_assoc. reflexivity.
  - intros Hnone. unfold deleteClub. rewrite Hrun, Hguard, Hid.
    fold account. rewrite run_bind.
    destruct Hnone as [-> | (b & -> & Hb)]; [reflexivity|].
    rewrite bool_decide_false by lia. reflexivity.
Qed.

(** ** What the entitlement operations leave behind *)

Lemma upsertClubResource_grant_run svc userId isModerator e cs w :
  cs ≠ [] →
  mayGate svc userId isModerator e (store w) →
  contributesToAll userId isModerator (clubId <$> cs) (store w) →
  let clubIds := clubId <$> cs in
  let tierIds := tier_id <$> tiersOfClubs clubIds (store w) in
  let kept := deleteAccess e clubIds tierIds (store w) in
  let s' := markAvailability e Private (createAccess (requestedGrants e userId cs) kept) in
  upsertClubResource svc userId isModerator e cs w
  = if decide (insertable (entityAccess kept) (requestedGrants e userId cs))
    then (Ok tt, mkWorld s' (trace w ++ [Commit (markAvailability e Private (store w));
                                         Commit s']))
    else (Throw UniqueConstraintViolation, w).
Proof.
  intros Hne Hgate Hall clubIds tierIds kept s'. unfold upsertClubResource.
  rewrite run_bind, (notOwnerNorModerator_allows _ _ _ _ _ Hgate).
  rewrite run_query, (contributing_guard_passes _ _ _ _ Hall).
  fold clubIds.
  assert (Hlen : (0 < length clubIds)%nat).
  { subst clubIds. destruct cs; [done | simpl; lia]. }
  rewrite (bool_decide_true (0 < length clubIds)%nat) by exact Hlen.
  rewrite run_query.
  rewrite (bool_decide_false (length clubIds = 0%nat)) by lia.
  unfold transaction. rewrite tx_execute, tx_createMany. cbn [view outside].
  fold tierIds. fold kept. unfold requestedGrants in *.
  set (clubRows := grant e AccessorType.Club userId <$> _) in *.
  set (tierRows := grant e AccessorType.ClubTier userId <$> _) in *.
  destruct (decide (insertable (entityAccess kept) (clubRows ++ tierRows))) as [Hins|Hins].
  - apply insertable_app in Hins as [Hclub Htier].
    rewrite (decide_True (P := insertable (entityAccess kept) clubRows)) by exact Hclub.
    rewrite tx_createMany. cbn [view outside].
    rewrite (decide_True (P := insertable _ tierRows)) by exact Htier.
    subst s'. unfold entityAvailabilityUpdate, markAvailability, createAccess,
      setEntityAccess, setAvailability. cbn. rewrite <- !app_assoc. reflexivity.
  - destruct (decide (insertable (entityAccess kept) clubRows)) as [Hclub|Hclub];
      [|reflexivity].
    rewrite tx_createMany. cbn [view outside].
    rewrite (decide_False (P := insertable _ tierRows)); [reflexivity|].
    intros Htier. apply Hins, insertable_app. done.
Qed.

(** A non-empty request of a caller who passes both guards is carried out,
    or is turned away by the key and rolled back. *)
Lemma upsertClubResource_grant_cases svc userId isModerator e cs w :
  cs ≠ [] →
  mayGate svc userId isModerator e (store w) →
  contributesToAll userId isModerator (clubId <$> cs) (store w) →
  let clubIds := clubId <$> cs in
  let tierIds := tier_id <$> tiersOfClubs clubIds (store w) in
  let s' := markAvailability e Private
              (createAccess (requestedGrants e userId cs)
                 (deleteAccess e clubIds tierIds (store w))) in
  (requestInsertable e userId cs (store w)
   ∧ upsertClubResource svc userId isModerator e cs w
     = (Ok tt, mkWorld s' (trace w ++ [Commit (markAvailability e Private (store w));
                                       Commit s'])))
  ∨ (¬ requestInsertable e userId cs (store w)
     ∧ upsertClubResource svc userId isModerator e cs w
       = (Throw UniqueConstraintViolation, w)).
Proof.
  intros Hne Hgate Hall clubIds tierIds s'.
  rewrite (upsertClubResource_grant_run _ _ _ _ _ _ Hne Hgate Hall).
  unfold requestInsertable. fold clubIds tierIds.
  destruct (decide _) as [Hins|Hins]; [by left | by right].
Qed.

Lemma upsertClubResource_public_run svc userId isModerator e w details :
  mayGate svc userId isModerator e (store w) →
  head (entityRequiresClub svc (store w) [e]) = Some details →
  let s1 := deleteAccess e (clubId <$> details_clubs details)
                         (flatTierIds (details_clubs details)) (store w) in
  let s2 := markAvailability e Public s1 in
  upsertClubResource svc userId isModerator e [] w
  = (Ok tt,
     if decide (grantsOf s1 e = [])
     then mkWorld s2 (trace w ++ [Commit s1; Commit s2])
     else mkWorld s1 (trace w ++ [Commit s1])).
Proof.
  intros Hgate Hdetails s1 s2. unfold upsertClubResource.
  rewrite run_bind, (notOwnerNorModerator_allows _ _ _ _ _ Hgate).
  rewrite run_query. cbn [fmap list_fmap existsb].
  rewrite andb_false_r. cbn [length].
  rewrite (bool_decide_false (0 < 0)%nat) by lia.
  rewrite run_ret, (bool_decide_true (0%nat = 0%nat)) by done.
  unfold getClubDetailsForResource. rewrite run_query, Hdetails, run_execute, run_query.
  cbn [store]. fold s1.
  destruct (decide (grantsOf s1 e = [])) as [Hnil|Hsome].
  - rewrite Hnil. unfold entityAvailabilityUpdate, execute. cbn.
    rewrite <- app_assoc. reflexivity.
  - destruct (grantsOf s1 e); [done|]. reflexivity.
Qed.

Lemma updateClubResource_run svc userId isModerator e c tierIds w :
  mayGate svc userId isModerator e (store w) →
  contributesToAll userId isModerator [c] (store w) →
  let rows := if bool_decide (length (default [] tierIds) = 0%nat)
              then [grant e AccessorType.Club userId c]
              else grant e AccessorType.ClubTier userId <$> default [] tierIds in
  let kept := deleteAccess e [c] (tier_id <$> tiersOfClubs [c] (store w)) (store w) in
  let s' := createAccess rows kept in
  updateClubResource svc userId isModerator e c tierIds w
  = if decide (insertable (entityAccess kept) rows)
    then (Ok tt, mkWorld s' (trace w ++ [Commit s']))
    else (Throw UniqueConstraintViolation, w).
Proof.
  intros Hgate Hall rows kept s'. unfold updateClubResource.
  rewrite run_bind, (notOwnerNorModerator_allows _ _ _ _ _ Hgate).
  rewrite run_query.
  pose proof (contributing_guard_passes _ _ _ _ Hall) as Hguard.
  cbn [existsb] in Hguard. rewrite orb_false_r in Hguard. rewrite Hguard.
  rewrite run_query. unfold transaction. rewrite tx_execute. cbn [view outside].
  fold kept. subst s' rows.
  destruct (bool_decide (length (default [] tierIds) = 0%nat));
    rewrite createMany_run; cbn [view outside]; by destruct (decide _).
Qed.

Lemma removeClubResource_run svc userId isModerator e c w :
  canRemoveResource svc userId isModerator e c w = (Ok true, w) →
  let s1 := deleteAccess e [c] (tier_id <$> tiersOfClubs [c] (store w)) (store w) in
  removeClubResource svc userId isModerator e c w
  = (Ok tt,
     if decide (grantsOf s1 e = [])
     then mkWorld (markAvailability e Public s1)
                  (trace w ++ [Commit (markAvailability e Public (store w));
                               Commit (markAvailability e Public s1)])
     else mkWorld s1 (trace w ++ [Commit s1])).
Proof.
  intros Hcan s1. unfold removeClubResource.
  rewrite run_bind, Hcan. cbn [negb]. rewrite run_query.
  unfold transaction. rewrite tx_execute, tx_query. cbn [view outside]. fold s1.
  destruct (decide (grantsOf s1 e = [])) as [Hnil|Hsome].
  - rewrite Hnil. unfold entityAvailabilityUpdate, markAvailability, setAvailability.
    cbn. rewrite <- !app_assoc. reflexivity.
  - destruct (grantsOf s1 e); [done|]. reflexivity.
Qed.

(** The store a completed [removeClubResource] leaves. *)
Lemma removeClubResource_store svc userId isModerator e c w :
  canRemoveResource svc userId isModerator e c w = (Ok true, w) →
  let s1 := deleteAccess e [c] (tier_id <$> tiersOfClubs [c] (store w)) (store w) in
  (removeClubResource svc userId isModerator e c w).1 = Ok tt
  ∧ store (removeClubResource svc userId isModerator e c w).2
    = if decide (grantsOf s1 e = []) then markAvailability e Public s1 else s1.
Proof.
  intros Hcan s1. rewrite (removeClubResource_run _ _ _ _ _ _ Hcan). fold s1.
  by destruct (decide _).
Qed.

(** ** Store lemmas *)

Lemma filter_filter_none {A} (P Q : A → Prop) `{!∀ x, Decision (P x)} `{!∀ x, Decision (Q x)}
    (l : list A) :
  (∀ x, x ∈ l → P x → Q x → False) → filter P (filter Q l) = [].
Proof.
  intros Hex. apply filter_none. intros x [HQ Hx]%list_elem_of_filter HP. eauto.
Qed.

Lemma filter_filter_keep {A} (P Q : A → Prop) `{!∀ x, Decision (P x)} `{!∀ x, Decision (Q x)}
    (l : list A) :
  (∀ x, x ∈ l → P x → Q x) → filter P (filter Q l) = filter P l.
Proof.
  intros Himp. induction l as [|x l IH]; [done|].
  assert (IH' : filter P (filter Q l) = filter P l).
  { apply IH. intros y Hy. apply Himp. by apply list_elem_of_further. }
  pose proof (Himp x (list_elem_of_here _ _)) as Hx.
  rewrite (filter_cons Q). destruct (decide (Q x)) as [HQ|HQ].
  - rewrite !(filter_cons P). destruct (decide (P x)); by rewrite IH'.
  - rewrite (filter_cons_False P x l) by tauto. exact IH'.
Qed.

Lemma requestedGrants_spec e userId cs a :
  a ∈ requestedGrants e userId cs ↔
  a = grant e (accessorType a) userId (accessorId a)
  ∧ ((accessorType a = AccessorType.Club
      ∧ ∃ c, c ∈ cs ∧ hasTierIds c = false ∧ accessorId a = clubId c)
     ∨ (accessorType a = AccessorType.ClubTier
        ∧ ∃ c ids, c ∈ cs ∧ clubTierIds c = Some ids ∧ accessorId a ∈ ids)).
Proof.
  unfold requestedGrants, flatTierIds. rewrite elem_of_app, !list_elem_of_fmap. split.
  - intros [(x & -> & (c & -> & [Hc Hin]%list_elem_of_filter)%list_elem_of_fmap)
           |(x & -> & (ids & Hx & Hids)%list_elem_of_join)].
    + split; [done|]. left. split; [done|]. exists c.
      apply negb_prop_elim, Is_true_false in Hc. done.
    + split; [done|]. right. split; [done|].
      apply list_elem_of_omap in Hids as (c & [_ Hc]%list_elem_of_filter & Hcids).
      by exists c, ids.
  - intros [Ha [[Hty (c & Hc & Htiers & Hid)]|[Hty (c & ids & Hc & Hids & Hid)]]].
    + left. exists (accessorId a). rewrite <- Hty. split; [done|].
      apply list_elem_of_fmap. exists c. split; [done|].
      apply list_elem_of_filter. split; [|done]. by rewrite Htiers.
    + right. exists (accessorId a). rewrite <- Hty. split; [done|].
      apply list_elem_of_join. exists ids. split; [done|].
      apply list_elem_of_omap. exists c. split; [|done].
      apply list_elem_of_filter. split; [|done].
      unfold hasTierIds. rewrite Hids. destruct ids; [by apply elem_of_nil in Hid | done].
Qed.


(** ** Entitlement engine: grant *)

(** C3. A grant with a non-empty club list, by a caller who passes both
    guards, first deletes the rows in the requested id-space: exactly the
    grants of the resource that are [Club] rows of a requested club or
    [ClubTier] rows of any tier the registry holds for a requested club.  When
    the key lets the requested rows in, the call completes and the grant table
    is the old table without those rows, followed by the requested rows; when
    it does not (a row requested twice, or a requested tier row that the
    delete left in the table), the insert throws and the transaction is rolled
    back.  Re-granting to a single club [C] with no tier list always
    completes, and leaves, within the id-space of [C] (its id and all its
    tiers), the one [Club] row for [C]: a tier row for a tier of [C] does not
    survive. *)
Theorem upsertClubResource_replaces_id_space (svc : Services) (userId : Z)
    (isModerator : bool) (e : Entity) (cs : list ClubScope) (w : World) :
  cs ≠ [] →
  mayGate svc userId isModerator e (store w) →
  contributesToAll userId isModerator (clubId <$> cs) (store w) →
  let clubIds := clubId <$> cs in
  let tierIds := tier_id <$> filter (λ t, tier_clubId t ∈ clubIds) (clubTiers (store w)) in
  let out := upsertClubResource svc userId isModerator e cs w in
  (∀ a, accessInScope e clubIds tierIds a ↔
        accessToId a = entityId e ∧ accessToType a = entityType e
        ∧ ((accessorType a = AccessorType.Club ∧ accessorId a ∈ clubIds)
           ∨ (accessorType a = AccessorType.ClubTier ∧ accessorId a ∈ tierIds)))
  ∧ (requestInsertable e userId cs (store w) →
     out.1 = Ok tt
     ∧ entityAccess (store out.2)
       = filter (λ a, ¬ accessInScope e clubIds tierIds a) (entityAccess (store w))
         ++ requestedGrants e userId cs)
  ∧ (¬ requestInsertable e userId cs (store w) →
     out = (Throw UniqueConstraintViolation, w))
  ∧ (∀ C, cs = [mkClubScope C None] ∨ cs = [mkClubScope C (Some [])] →
          out.1 = Ok tt
          ∧ filter (accessInScope e [C] tierIds) (entityAccess (store out.2))
            = [grant e AccessorType.Club userId C]).
Proof.
  intros Hne Hgate Hall clubIds tierIds out.
  assert (Hok : requestInsertable e userId cs (store w) →
                out.1 = Ok tt
                ∧ entityAccess (store out.2)
                  = filter (λ a, ¬ accessInScope e clubIds tierIds a) (entityAccess (store w))
                    ++ requestedGrants e userId cs).
  { intros Hins. subst out.
    destruct (upsertClubResource_grant_cases svc userId isModerator e cs w Hne Hgate Hall)
      as [[_ Hrun]|[Hno _]]; [|done].
    rewrite Hrun. split; reflexivity. }
  split_and!.
  - intros a. unfold accessInScope. tauto.
  - exact Hok.
  - intros Hno. subst out.
    destruct (upsertClubResource_grant_cases svc userId isModerator e cs w Hne Hgate Hall)
      as [[Hins _]|[_ Hrun]]; [done | exact Hrun].
  - intros C HC.
    assert (Hcs : clubIds = [C]
                  ∧ requestedGrants e userId cs = [grant e AccessorType.Club userId C]).
    { subst clubIds. destruct HC as [-> | ->]; done. }
    destruct Hcs as [HclubIds Hreq].
    assert (Hins : requestInsertable e userId cs (store w)).
    { unfold requestInsertable. rewrite Hreq. cbn [entityAccess deleteAccess setEntityAccess].
      apply insertable_after_delete.
      - intros a ->%list_elem_of_singleton. unfold accessInScope, grant. simpl.
        split_and!; [done..|]. left. split; [|done].
        fold clubIds. rewrite HclubIds. apply list_elem_of_here.
      - apply NoDup_singleton. }
    destruct (Hok Hins) as [Hrun Haccess]. split; [exact Hrun|].
    rewrite Haccess, Hreq, filter_app. rewrite HclubIds.
    rewrite (filter_filter_none (accessInScope e [C] tierIds));
      last (intros a _ Hin Hout; apply Hout; exact Hin).
    rewrite filter_cons_True, filter_nil; [done|].
    unfold accessInScope, grant. simpl. split_and!; [done..|].
    left. split; [apply list_elem_of_here | done].
Qed.

(** C4. A grant to clubs other than [B] leaves the rows of [B] on the
    resource as they were: when [B] is not among the requested clubs, and no
    tier of [B] is a tier the registry holds for a requested club or a tier
    listed in the request, the rows in the id-space of [B] (its [Club] row and
    the [ClubTier] rows of its tiers) are the same list before and after, and
    the resource still holds a grant of [B].  When the key lets the requested
    rows in, the call completes, the resource is [Private], and it holds a
    grant for every requested club as well; when it does not, the insert
    throws and the transaction is rolled back. *)
Theorem upsertClubResource_leaves_other_club (svc : Services) (userId : Z)
    (isModerator : bool) (e : Entity) (cs : list ClubScope) (w : World) (B : Z) :
  cs ≠ [] →
  mayGate svc userId isModerator e (store w) →
  contributesToAll userId isModerator (clubId <$> cs) (store w) →
  let tiersB := tier_id <$> filter (λ t, tier_clubId t = B) (clubTiers (store w)) in
  let ofB := λ a, accessToId a = entityId e ∧ accessToType a = entityType e
                  ∧ ((accessorType a = AccessorType.Club ∧ accessorId a = B)
                     ∨ (accessorType a = AccessorType.ClubTier ∧ accessorId a ∈ tiersB)) in
  filter ofB (entityAccess (store w)) ≠ [] →
  B ∉ clubId <$> cs →
  (∀ t, t ∈ tiersB →
        (t ∉ tier_id <$> tiersOfClubs (clubId <$> cs) (store w)) ∧ (t ∉ flatTierIds cs)) →
  let out := upsertClubResource svc userId isModerator e cs w in
  filter ofB (entityAccess (store out.2)) = filter ofB (entityAccess (store w))
  ∧ (∃ b, b ∈ grantsOf (store out.2) e ∧ ofB b)
  ∧ (requestInsertable e userId cs (store w) →
     out.1 = Ok tt
     ∧ availabilityOf (store out.2) e = Private
     ∧ (∀ c, c ∈ cs →
             ∃ a, a ∈ grantsOf (store out.2) e
                  ∧ ((accessorType a = AccessorType.Club ∧ accessorId a = clubId c)
                     ∨ (accessorType a = AccessorType.ClubTier
                        ∧ ∃ ids, clubTierIds c = Some ids ∧ accessorId a ∈ ids))))
  ∧ (¬ requestInsertable e userId cs (store w) →
     out = (Throw UniqueConstraintViolation, w)).
Proof.
  intros Hne Hgate Hall tiersB ofB Hheld HB Htiers out.
  assert (Hframe :
    filter ofB (filter (λ a, ¬ accessInScope e (clubId <$> cs)
                               (tier_id <$> tiersOfClubs (clubId <$> cs) (store w)) a)
                       (entityAccess (store w))
                ++ requestedGrants e userId cs)
    = filter ofB (entityAccess (store w))).
  { rewrite filter_app, (filter_none ofB (requestedGrants _ _ _)), app_nil_r.
    - apply filter_filter_keep. intros a _ (_ & _ & HofB) (_ & _ & Hscope).
      destruct HofB as [[Hty HidB]|[Hty Hin]], Hscope as [[Hin' Hty']|[Hin' Hty']];
        try congruence.
      by destruct (Htiers _ Hin).
    - intros a [_ Hreq]%requestedGrants_spec (_ & _ & HofB).
      destruct HofB as [[Hty HidB]|[Hty Hin]],
               Hreq as [[Hty' (c & Hc & _ & Hid)]|[Hty' (c & ids & Hc & Hids & Hid)]];
        try congruence.
      + apply HB. apply list_elem_of_fmap. exists c. split; [congruence | done].
      + destruct (Htiers _ Hin) as [_ Hflat]. apply Hflat.
        unfold flatTierIds. apply list_elem_of_join. exists ids. split; [done|].
        apply list_elem_of_omap. by exists c. }
  assert (Hkeeps : filter ofB (entityAccess (store out.2))
                   = filter ofB (entityAccess (store w))).
  { subst out.
    destruct (upsertClubResource_grant_cases svc userId isModerator e cs w Hne Hgate Hall)
      as [[_ Hrun]|[_ Hrun]]; rewrite Hrun; [exact Hframe | reflexivity]. }
  split_and!.
  - exact Hkeeps.
  - destruct (filter ofB (entityAccess (store w))) as [|b rest] eqn:Hold; [done|].
    exists b.
    assert (Hb : b ∈ filter ofB (entityAccess (store out.2)))
      by (rewrite Hkeeps; apply list_elem_of_here).
    apply list_elem_of_filter in Hb as [HofB Hb]. split; [|done].
    unfold grantsOf. apply list_elem_of_filter. split; [|exact Hb].
    destruct HofB as (? & ? & _). done.
  - intros Hins. subst out.
    destruct (upsertClubResource_grant_cases svc userId isModerator e cs w Hne Hgate Hall)
      as [[_ Hrun]|[Hno _]]; [|done].
    rewrite Hrun. cbn [fst snd store]. split_and!.
    + reflexivity.
    + unfold availabilityOf. simpl. by rewrite lookup_insert_eq.
    + intros c Hc.
      destruct (hasTierIds c) eqn:Htc.
      * unfold hasTierIds in Htc.
        destruct (clubTierIds c) as [[|t ids]|] eqn:Hids; try discriminate.
        exists (grant e AccessorType.ClubTier userId t). split.
        -- unfold grantsOf. apply list_elem_of_filter. split; [done|].
           simpl. apply elem_of_app. right. apply requestedGrants_spec.
           split; [done|]. right. split; [done|].
           exists c, (t :: ids). split_and!; [done..|apply list_elem_of_here].
        -- right. split; [done|]. exists (t :: ids).
           split; [done | apply list_elem_of_here].
      * exists (grant e AccessorType.Club userId (clubId c)). split.
        -- unfold grantsOf. apply list_elem_of_filter. split; [done|].
           simpl. apply elem_of_app. right. apply requestedGrants_spec.
           split; [done|]. left. split; [done|]. by exists c.
        -- by left.
  - intros Hno. subst out.
    destruct (upsertClubResource_grant_cases svc userId isModerator e cs w Hne Hgate Hall)
      as [[Hins _]|[_ Hrun]]; [done | exact Hrun].
Qed.

(** C2, as the service does it.  With an empty club list and a caller who
    owns the resource or is a moderator, the call removes the [Club] and
    [ClubTier] rows of the resource for the clubs and tiers that the resource
    lookup reports for it, whoever administers those clubs, and no other row;
    no other table changes.  When the resource is then left without any grant
    its availability becomes [Public]; otherwise the availability column is
    not written. *)
Theorem upsertClubResource_makes_public_by_lookup (svc : Services) (userId : Z) (isModerator : bool)
    (e : Entity) (w : World) (details : ClubEntityAccess) :
  mayGate svc userId isModerator e (store w) →
  head (entityRequiresClub svc (store w) [e]) = Some details →
  let out := upsertClubResource svc userId isModerator e [] w in
  let s' := store out.2 in
  out.1 = Ok tt
  ∧ entityAccess s'
    = filter (λ a, ¬ (accessToId a = entityId e ∧ accessToType a = entityType e
                      ∧ ((accessorId a ∈ clubId <$> details_clubs details
                          ∧ accessorType a = AccessorType.Club)
                         ∨ (accessorId a ∈ flatTierIds (details_clubs details)
                            ∧ accessorType a = AccessorType.ClubTier))))
             (entityAccess (store w))
  ∧ (clubs s', clubAdmins s', clubTiers s', clubMemberships s')
    = (clubs (store w), clubAdmins (store w), clubTiers (store w), clubMemberships (store w))
  ∧ (grantsOf s' e = [] → availabilityOf s' e = Public)
  ∧ (grantsOf s' e ≠ [] → availability s' = availability (store w)).
Proof.
  intros Hgate Hdetails out s'. subst s' out.
  rewrite (upsertClubResource_public_run _ _ _ _ _ _ Hgate Hdetails). cbn [fst snd].
  set (s1 := deleteAccess e (clubId <$> details_clubs details)
                          (flatTierIds (details_clubs details)) (store w)).
  destruct (decide (grantsOf s1 e = [])) as [Hnil|Hsome]; cbn [store].
  - split_and!; try reflexivity.
    + intros _. unfold availabilityOf, markAvailability. simpl.
      by rewrite lookup_insert_eq.
    + intros Hgr. exfalso. apply Hgr. exact Hnil.
  - split_and!; try reflexivity. intros Hgr. by destruct Hsome.
Qed.

(** ** The availability invariant is kept by grant and revoke *)

Lemma entity_key_inj e e' : entity_key e = entity_key e' → e = e'.
Proof. destruct e, e'. unfold entity_key. simpl. by intros [= -> ->]. Qed.

Lemma availabilityOf_mark_same e av s : availabilityOf (markAvailability e av s) e = av.
Proof. unfold availabilityOf, markAvailability. simpl. by rewrite lookup_insert_eq. Qed.

Lemma availabilityOf_mark_other e e' av s :
  e' ≠ e → availabilityOf (markAvailability e av s) e' = availabilityOf s e'.
Proof.
  intros Hne. unfold availabilityOf, markAvailability. simpl.
  rewrite lookup_insert_ne; [done|]. intros Heq. by apply Hne, entity_key_inj.
Qed.


Lemma grantsOf_deleteAccess_other e clubIds tierIds s e' :
  e' ≠ e → grantsOf (deleteAccess e clubIds tierIds s) e' = grantsOf s e'.
Proof.
  intros Hne. unfold grantsOf, deleteAccess. simpl.
  apply filter_filter_keep. intros a _ [Hid Hty] (Hid' & Hty' & _).
  apply Hne. destruct e, e'. simpl in *. congruence.
Qed.

Lemma grantsOf_createAccess_other e rows s e' :
  e' ≠ e → (∀ a, a ∈ rows → isGrantOf e a) →
  grantsOf (createAccess rows s) e' = grantsOf s e'.
Proof.
  intros Hne Hrows. unfold grantsOf, createAccess. simpl.
  rewrite filter_app, (filter_none _ rows), app_nil_r; [done|].
  intros a Ha [Hid Hty]. destruct (Hrows a Ha) as [Hid' Hty'].
  apply Hne. destruct e, e'. simpl in *. congruence.
Qed.

Lemma grantsOf_createAccess_same e rows s :
  (∀ a, a ∈ rows → isGrantOf e a) →
  grantsOf (createAccess rows s) e = grantsOf s e ++ rows.
Proof.
  intros Hrows. unfold grantsOf, createAccess. simpl. rewrite filter_app. f_equal.
  induction rows as [|a rows IH]; [done|].
  rewrite filter_cons_True by (apply Hrows, list_elem_of_here).
  f_equal. apply IH. intros b Hb. by apply Hrows, list_elem_of_further.
Qed.

Lemma requestedGrants_isGrantOf e userId cs a :
  a ∈ requestedGrants e userId cs → isGrantOf e a.
Proof. intros [-> _]%requestedGrants_spec. done. Qed.

Lemma invariant_step s s' e :
  availabilityInvariant s →
  (∀ e', e' ≠ e → grantsOf s' e' = grantsOf s e' ∧ availabilityOf s' e' = availabilityOf s e') →
  (availabilityOf s' e = Public ↔ grantsOf s' e = []) →
  availabilityInvariant s'.
Proof.
  intros Hinv Hframe Hlocal e'. destruct (decide (e' = e)) as [->|Hne]; [done|].
  destruct (Hframe e' Hne) as [-> ->]. apply Hinv.
Qed.





(** ** The invariant and updateClubResource *)

(** C1 at a failing input.  R is public with no grant, so the invariant
    holds; its owner, who owns club A, calls [updateClubResource] for club A
    with no tier list.  The call completes, R holds one [Club] grant, and its
    availability is still [Public]: the invariant no longer holds. *)
Theorem updateClubResource_leaves_public_flag :
  availabilityInvariant (store publicWorld)
  ∧ ∃ w', updateClubResource scenarioServices 1 false resourceR 10 None publicWorld
          = (Ok tt, w')
          ∧ grantsOf (store w') resourceR = [grant resourceR AccessorType.Club 1 10]
          ∧ availabilityOf (store w') resourceR = Public
          ∧ ¬ availabilityInvariant (store w').
Proof.
  split.
  - intros e. split; [done|]. intros _. unfold availabilityOf. simpl.
    destruct (decide (entity_key e = entity_key resourceR)) as [->|Hne].
    + by rewrite lookup_singleton_eq.
    + by rewrite lookup_singleton_ne.
  - eexists. split; [vm_compute; reflexivity|].
    split_and!; [vm_compute; reflexivity | vm_compute; reflexivity |].
    intros Hinv. specialize (Hinv resourceR) as [Hinv _].
    discriminate Hinv. vm_compute. reflexivity.
Qed.

(** ** Commit points of the empty-list path *)

(** C5 at a failing input.  R is gated by club A alone and its owner calls
    [upsertClubResource] with the empty list.  The run commits twice: the
    first committed state has lost the grant while R is still [Private]; only
    the second one has R [Public]. *)
Theorem upsertClubResource_revert_commits_twice :
  ∃ s1 s2,
    trace (upsertClubResource scenarioServices 1 false resourceR [] gatedByA).2
    = [Commit s1; Commit s2]
    ∧ grantsOf s1 resourceR = []
    ∧ availabilityOf s1 resourceR = Private
    ∧ grantsOf s2 resourceR = []
    ∧ availabilityOf s2 resourceR = Public.
Proof.
  eexists _, _. split; [vm_compute; reflexivity|].
  split_and!; vm_compute; reflexivity.
Qed.

(** Called without a transaction client, [upsertClubTiers] commits each
    statement on its own: a request of the owner of club A that deletes T2,
    creates a tier and updates a missing tier throws after the deletion and
    the creation were committed.  Inside a transaction the same request leaves
    the tiers as they were. *)
Lemma upsertClubTiers_standalone_partial_effect :
  let request tx :=
    upsertClubTiers scenarioServices 10 (Some [newTier; missingTier]) (Some [2]) tx 1 false in
  let alone := request None publicWorld in
  let inside := transaction (λ tx, onView (request (Some tx))) publicWorld in
  alone.1 = Throw RecordNotFound
  ∧ tier_id <$> clubTiers (store alone.2) = [1; 3; 4]
  ∧ length (trace alone.2) = 2%nat
  ∧ inside = (Throw RecordNotFound, publicWorld).
Proof. split_and!; vm_compute; reflexivity. Qed.

(** The grant rows of a non-empty request change in one commit: the delete
    and the inserts are committed together, when the transaction ends.  The
    commit before it is the one of the availability flag, which does not go
    through the transaction: it shows the old grant rows. *)
Lemma upsertClubResource_grant_rows_commit_once svc userId isModerator e cs w :
  cs ≠ [] →
  mayGate svc userId isModerator e (store w) →
  contributesToAll userId isModerator (clubId <$> cs) (store w) →
  requestInsertable e userId cs (store w) →
  ∃ s1 s', trace (upsertClubResource svc userId isModerator e cs w).2
           = trace w ++ [Commit s1; Commit s']
           ∧ entityAccess s1 = entityAccess (store w)
           ∧ store (upsertClubResource svc userId isModerator e cs w).2 = s'.
Proof.
  intros Hne Hgate Hall Hins.
  destruct (upsertClubResource_grant_cases svc userId isModerator e cs w Hne Hgate Hall)
    as [[_ Hrun]|[Hno _]]; [|done].
  rewrite Hrun. by eexists _, _.
Qed.

(** ** Tier visibility *)

(** A caller who is not a moderator and queries a club outside the clubs
    they contribute to gets the restrictive filter, whatever they asked. *)
Lemma getClubTiers_outsider_restricted input userId s c :
  c ∈ queriedClubs input →
  c ∉ contributingIds userId s →
  tierFilter input userId false s = (Some true, Some true).
Proof.
  intros Hq Hout. unfold tierFilter. fold (contributingIds userId s).
  assert (Hview : canViewAllTiers false (contributingIds userId s)
                    (q_clubId input) (q_clubIds input) = false); [|by rewrite Hview].
  unfold canViewAllTiers, queriedClubs in *. simpl.
  destruct (truthy (q_clubId input)) eqn:Htruthy.
  - apply list_elem_of_singleton in Hq. subst c.
    destruct (q_clubId input) as [z|]; [|done]. simpl in *.
    by rewrite bool_decide_false.
  - apply andb_false_iff. right. apply negb_false_iff, existsb_exists.
    exists c. split; [by apply list_elem_of_In|].
    apply negb_true_iff. by apply bool_decide_eq_false.
Qed.

(** A moderator keeps the filter they asked for, and so does a caller who
    names a [clubId] among their contributing clubs, when every id of
    [clubIds] is among them too. *)
Lemma getClubTiers_contributor_keeps_filter input userId isModerator s :
  isModerator = true
  ∨ (default (-1) (q_clubId input) ∈ contributingIds userId s
     ∧ ∀ c, c ∈ default [] (q_clubIds input) → c ∈ contributingIds userId s) →
  tierFilter input userId isModerator s = (q_listedOnly input, q_joinableOnly input).
Proof.
  intros Hcan. unfold tierFilter. fold (contributingIds userId s).
  assert (Hview : canViewAllTiers isModerator (contributingIds userId s)
                    (q_clubId input) (q_clubIds input) = true); [|by rewrite Hview].
  unfold canViewAllTiers. destruct Hcan as [->|[Hclub Hall]]; [done|].
  apply orb_true_iff. right. apply andb_true_iff. split.
  - by apply bool_decide_eq_true.
  - apply negb_true_iff, not_true_iff_false. intros (c & Hc & Hneg)%existsb_exists.
    apply negb_true_iff, bool_decide_eq_false in Hneg.
    apply Hneg, Hall. by apply list_elem_of_In.
Qed.

(** C8 at a failing input.  User 1 owns club A, the only club queried, and
    asks for its tiers through [clubIds] with no filter.  The query runs with
    [listedOnly] and [joinableOnly] forced to [true] and the unlisted tier T2
    is not returned; the same caller asking through [clubId] gets both
    tiers. *)
Theorem getClubTiers_by_clubIds_restricts_contributor :
  let byClubIds := mkGetClubTiersInput None (Some [10]) None None None in
  let byClubId := mkGetClubTiersInput (Some 10) None None None None in
  queriedClubs byClubIds = [10]
  ∧ contributingIds (Some 1) (store publicWorld) = [10]
  ∧ tierFilter byClubIds (Some 1) false (store publicWorld) = (Some true, Some true)
  ∧ (getClubTiers byClubIds (Some 1) false publicWorld).1 = Ok [mkClubTierView tierT1 0]
  ∧ (getClubTiers byClubId (Some 1) false publicWorld).1
    = Ok [mkClubTierView tierT1 0; mkClubTierView tierT2 0].
Proof. split_and!; vm_compute; reflexivity. Qed.

(** ** The claims at concrete inputs *)

(** C2, counterexample.  R is gated by club B, which user 1 neither owns nor
    administers.  User 1, the owner of R, calls [upsertClubResource] with the
    empty list: the row of club B is removed. *)
Lemma upsertClubResource_removes_foreign_grant :
  mayGate scenarioServices 1 false resourceR (store gatedByB)
  ∧ ¬ removesOnlyOwnClubs scenarioServices 1 false resourceR gatedByB.
Proof.
  split.
  - right. eexists. split; vm_compute; reflexivity.
  - intros Hclaim.
    destruct (Hclaim (grant resourceR AccessorType.Club 2 20)) as (c & Hclub & Hc).
    + apply list_elem_of_here.
    + vm_compute. apply not_elem_of_nil.
    + assert (Hids : cc_id <$> userContributingClubs 1 None (store gatedByB) = [10])
        by (vm_compute; reflexivity).
      rewrite Hids in Hc. apply list_elem_of_singleton in Hc. subst c.
      destruct Hclub as [[_ Hid]|[Hty _]]; discriminate.
Qed.

(** C2, witness: the same call; the lookup reports club B for R, its row is
    removed and R becomes public. *)
Lemma upsertClubResource_makes_public_by_lookup_witness :
  (upsertClubResource scenarioServices 1 false resourceR [] gatedByB).1 = Ok tt
  ∧ entityAccess (store (upsertClubResource scenarioServices 1 false resourceR [] gatedByB).2)
    = []
  ∧ availabilityOf (store (upsertClubResource scenarioServices 1 false resourceR [] gatedByB).2)
                   resourceR = Public.
Proof.
  destruct (upsertClubResource_makes_public_by_lookup scenarioServices 1 false resourceR gatedByB
              (mkClubEntityAccess 100 ModelVersion [mkClubScope 20 (Some [])]))
    as (Hok & Haccess & _ & Hpublic & _).
  - right. eexists. split; vm_compute; reflexivity.
  - vm_compute. reflexivity.
  - split_and!; [exact Hok | rewrite Haccess; vm_compute; reflexivity |].
    apply Hpublic. vm_compute. reflexivity.
Defined.

(** C3, witness: R is gated by tier T1 of club A, which has the tiers T1 and
    T2; its owner re-grants it to club A with no tier list. *)
Lemma upsertClubResource_replaces_id_space_witness :
  (upsertClubResource scenarioServices 1 false resourceR [mkClubScope 10 None] gatedByT1).1
  = Ok tt
  ∧ entityAccess
      (store (upsertClubResource scenarioServices 1 false resourceR [mkClubScope 10 None]
                gatedByT1).2)
    = [grant resourceR AccessorType.Club 1 10].
Proof.
  destruct (upsertClubResource_replaces_id_space scenarioServices 1 false resourceR
              [mkClubScope 10 None] gatedByT1) as (_ & Hok & _ & _).
  - done.
  - right. eexists. split; vm_compute; reflexivity.
  - right. intros c Hc. cbn in Hc. apply list_elem_of_singleton in Hc. subst c.
    vm_compute. apply list_elem_of_here.
  - destruct Hok as [Hrun Haccess]; [by_compute|].
    split; [exact Hrun|]. rewrite Haccess. vm_compute. reflexivity.
Defined.

(** C4, witness: R is gated by club B; its owner grants it to club A. *)
Lemma upsertClubResource_leaves_other_club_witness :
  (upsertClubResource scenarioServices 1 false resourceR [mkClubScope 10 None] gatedByB).1
  = Ok tt
  ∧ grant resourceR AccessorType.Club 2 20
    ∈ entityAccess (store (upsertClubResource scenarioServices 1 false resourceR
                             [mkClubScope 10 None] gatedByB).2)
  ∧ availabilityOf (store (upsertClubResource scenarioServices 1 false resourceR
                             [mkClubScope 10 None] gatedByB).2) resourceR = Private.
Proof.
  destruct (upsertClubResource_leaves_other_club scenarioServices 1 false resourceR
              [mkClubScope 10 None] gatedByB 20) as (Hframe & _ & Hok & _).
  - done.
  - right. eexists. split; vm_compute; reflexivity.
  - right. intros c Hc. cbn in Hc. apply list_elem_of_singleton in Hc. subst c.
    vm_compute. apply list_elem_of_here.
  - vm_compute. discriminate.
  - by_compute.
  - intros t Ht. cbn in Ht. apply list_elem_of_singleton in Ht. subst t.
    split; by_compute.
  - destruct Hok as (Hrun & Hprivate & _); [by_compute|].
    split_and!; [exact Hrun | | exact Hprivate].
    assert (Hin : grant resourceR AccessorType.Club 2 20
                  ∈ filter (λ a, accessToId a = entityId resourceR
                                 ∧ accessToType a = entityType resourceR
                                 ∧ ((accessorType a = AccessorType.Club ∧ accessorId a = 20)
                                    ∨ (accessorType a = AccessorType.ClubTier
                                       ∧ accessorId a
                                         ∈ tier_id <$> filter (λ t, tier_clubId t = 20)
                                                         (clubTiers (store gatedByB)))))
                           (entityAccess
                              (store (upsertClubResource scenarioServices 1 false resourceR
                                        [mkClubScope 10 None] gatedByB).2))).
    { rewrite Hframe. vm_compute. apply list_elem_of_here. }
    by apply list_elem_of_filter in Hin as [_ Hin].
Defined.

(** C6, witness: the request deletes T1, which has a member, and T2, which
    has none. *)
Lemma upsertClubTiers_delete_guard_witness :
  upsertClubTiers scenarioServices 10 None (Some [1; 2]) None 1 false withMember
  = (Throw BadRequestError, withMember).
Proof.
  apply (upsertClubTiers_delete_guard scenarioServices 10 None None 1 withMember false
           [1; 2] tierT1).
  - apply list_elem_of_here.
  - apply list_elem_of_here.
  - vm_compute. discriminate.
Defined.

(** C7, counterexample: user 3 asks to edit the tiers of club A. *)
Lemma upsertClubTiers_guard_not_authorization_error :
  ¬ tierGuardRaisesAuthorizationError scenarioServices 10 3 publicWorld.
Proof.
  intros Hclaim. unfold tierGuardRaisesAuthorizationError in Hclaim.
  assert (Hrun : upsertClubTiers scenarioServices 10 None None None 3 false publicWorld
                 = (Throw BadRequestError, publicWorld)) by (vm_compute; reflexivity).
  rewrite Hrun in Hclaim.
  assert (Hbad : (Throw BadRequestError, publicWorld)
                 = (@Throw unit AuthorizationError, publicWorld)); [|discriminate Hbad].
  apply Hclaim.
  - intros c Hc _. each_member Hc; vm_compute; discriminate.
  - intros a Ha. vm_compute in Ha. by apply elem_of_nil in Ha.
Qed.

(** C7, witness: user 3 asks to delete tier T2 of club A. *)
Lemma upsertClubTiers_guard_rejects_witness :
  upsertClubTiers scenarioServices 10 None (Some [2]) None 3 false publicWorld
  = (Throw BadRequestError, publicWorld).
Proof.
  apply (upsertClubTiers_guard_rejects scenarioServices 10 None None 3 publicWorld (Some [2])).
  - intros c Hc _. each_member Hc; vm_compute; discriminate.
  - intros a Ha. vm_compute in Ha. by apply elem_of_nil in Ha.
Defined.

(** C9, witness: user 1 deletes club A, whose account holds 500. *)
Lemma deleteClub_refunds_balance_witness :
  ∃ s', deleteClub scenarioServices 10 1 false publicWorld
        = (Ok clubA, mkWorld s' [BuzzCall (mkBuzzTransaction 1 10 AccountClub Tip 500);
                                 Commit s'])
        ∧ clubs s' = [clubB].
Proof.
  destruct (deleteClub_refunds_balance scenarioServices 10 1 false publicWorld clubA)
    as [Hrefund _].
  - vm_compute. reflexivity.
  - by left.
  - eexists. split; [apply (Hrefund 500); [vm_compute; reflexivity | lia]|].
    vm_compute. reflexivity.
Defined.

(** C10, witness: user 3 asks to remove R from club A. *)
Lemma removeClubResource_stranger_TypeError_witness :
  removeClubResource scenarioServices 3 false resourceR 10 gatedByA
  = (Throw TypeError, gatedByA).
Proof.
  apply removeClubResource_stranger_TypeError.
  - intros o Ho. vm_compute in Ho. by injection Ho as <-.
  - split.
    + intros c Hc _. each_member Hc; vm_compute; discriminate.
    + intros a Ha. vm_compute in Ha. by apply elem_of_nil in Ha.
Defined.

(** * Further properties of the service *)

(** ** The guards, case by case *)

Lemma notOwnerNorModerator_outcome svc userId isModerator e w :
  (notOwnerNorModerator svc userId isModerator e w = (Ok false, w)
   ∧ mayGate svc userId isModerator e (store w))
  ∨ (notOwnerNorModerator svc userId isModerator e w = (Ok true, w)
     ∧ isModerator = false
     ∧ ∃ o, head (entityOwnership svc (store w) userId [e]) = Some o ∧ isOwner o = false)
  ∨ (notOwnerNorModerator svc userId isModerator e w = (Throw TypeError, w)
     ∧ isModerator = false
     ∧ head (entityOwnership svc (store w) userId [e]) = None).
Proof.
  unfold notOwnerNorModerator, mayGate. rewrite run_query.
  destruct isModerator; [left; split; [reflexivity | by left]|].
  destruct (head (entityOwnership svc (store w) userId [e])) as [o|] eqn:Ho.
  - destruct (isOwner o) eqn:Hown.
    + left. split; [reflexivity|]. right. by exists o.
    + right. left. split_and!; [reflexivity | done | by exists o].
  - right. right. done.
Qed.

Lemma contributing_guard_cases userId isModerator clubIds s :
  (negb isModerator
   && existsb (λ c, negb (bool_decide (c ∈ cc_id <$> userContributingClubs userId (Some clubIds) s)))
              clubIds = false
   ∧ contributesToAll userId isModerator clubIds s)
  ∨ (negb isModerator
     && existsb (λ c, negb (bool_decide (c ∈ cc_id <$> userContributingClubs userId (Some clubIds) s)))
                clubIds = true
     ∧ isModerator = false
     ∧ ∃ c, c ∈ clubIds ∧ c ∉ cc_id <$> userContributingClubs userId (Some clubIds) s).
Proof.
  destruct isModerator; [left; split; [reflexivity | by left]|]. cbn [negb andb].
  destruct (existsb _ clubIds) eqn:Hex.
  - right. split_and!; try done.
    apply existsb_exists in Hex as (c & Hc & Hneg).
    apply negb_true_iff, bool_decide_eq_false in Hneg.
    exists c. split; [by apply list_elem_of_In | done].
  - left. split; [done|]. right. intros c Hc.
    destruct (decide (c ∈ cc_id <$> userContributingClubs userId (Some clubIds) s)) as [|Hout];
      [done|].
    assert (Htrue : existsb (λ c, negb (bool_decide
                       (c ∈ cc_id <$> userContributingClubs userId (Some clubIds) s)))
                      clubIds = true); [|congruence].
    apply existsb_exists. exists c. split; [by apply list_elem_of_In|].
    apply negb_true_iff. by apply bool_decide_eq_false.
Qed.

(** What a call to [upsertClubResource] comes to: a guard throws and nothing
    is written, or the request is carried out. *)
Lemma upsertClubResource_outcome svc userId isModerator e cs w :
  (∃ err, upsertClubResource svc userId isModerator e cs w = (Throw err, w))
  ∨ (cs ≠ []
     ∧ mayGate svc userId isModerator e (store w)
     ∧ contributesToAll userId isModerator (clubId <$> cs) (store w))
  ∨ (cs = []
     ∧ mayGate svc userId isModerator e (store w)
     ∧ ∃ details, head (entityRequiresClub svc (store w) [e]) = Some details).
Proof.
  destruct (notOwnerNorModerator_outcome svc userId isModerator e w)
    as [[Hrun Hgate]|[(Hrun & _)|(Hrun & _)]].
  - destruct (contributing_guard_cases userId isModerator (clubId <$> cs) (store w))
      as [[Hguard Hall]|(Hguard & _)].
    + destruct cs as [|c cs].
      * destruct (head (entityRequiresClub svc (store w) [e])) as [details|] eqn:Hd.
        -- right. right. split_and!; [done.. | by exists details].
        -- left. exists TypeError. unfold upsertClubResource.
           rewrite run_bind, Hrun, run_query, Hguard. cbn [fmap list_fmap length].
           rewrite (bool_decide_false (0 < 0)%nat) by lia.
           rewrite run_ret, (bool_decide_true (0%nat = 0%nat)) by done.
           unfold getClubDetailsForResource. by rewrite run_query, Hd.
      * right. left. done.
    + left. exists AuthorizationError. unfold upsertClubResource.
      by rewrite run_bind, Hrun, run_query, Hguard.
  - left. exists AuthorizationError. unfold upsertClubResource.
    by rewrite run_bind, Hrun.
  - left. exists TypeError. unfold upsertClubResource.
    by rewrite run_bind, Hrun.
Qed.

Lemma updateClubResource_outcome svc userId isModerator e c tierIds w :
  (∃ err, updateClubResource svc userId isModerator e c tierIds w = (Throw err, w))
  ∨ (mayGate svc userId isModerator e (store w)
     ∧ contributesToAll userId isModerator [c] (store w)).
Proof.
  destruct (notOwnerNorModerator_outcome svc userId isModerator e w)
    as [[Hrun Hgate]|[(Hrun & _)|(Hrun & _)]].
  - destruct (contributing_guard_cases userId isModerator [c] (store w))
      as [[Hguard Hall]|(Hguard & _)].
    + by right.
    + left. exists AuthorizationError. unfold updateClubResource.
      rewrite run_bind, Hrun, run_query.
      cbn [existsb] in Hguard. rewrite orb_false_r in Hguard. by rewrite Hguard.
  - left. exists AuthorizationError. unfold updateClubResource.
    by rewrite run_bind, Hrun.
  - left. exists TypeError. unfold updateClubResource.
    by rewrite run_bind, Hrun.
Qed.

Lemma canRemoveResource_outcome svc userId isModerator e c w :
  ∃ r, canRemoveResource svc userId isModerator e c w = (r, w).
Proof.
  unfold canRemoveResource. rewrite !run_query.
  destruct isModerator; [by eexists|].
  destruct (head (entityOwnership svc (store w) userId [e])); [|by eexists].
  destruct (isOwner _); [by eexists|].
  destruct (bool_decide _); [by eexists|].
  destruct (head (userContributingClubs userId (Some [c]) (store w))); by eexists.
Qed.

Lemma removeClubResource_outcome svc userId isModerator e c w :
  (∃ err, removeClubResource svc userId isModerator e c w = (Throw err, w))
  ∨ canRemoveResource svc userId isModerator e c w = (Ok true, w).
Proof.
  destruct (canRemoveResource_outcome svc userId isModerator e c w) as [[[|]|err] Hcan].
  - by right.
  - left. exists AuthorizationError. unfold removeClubResource. by rewrite run_bind, Hcan.
  - left. exists err. unfold removeClubResource. by rewrite run_bind, Hcan.
Qed.

(** ** Failures write nothing *)



(** ** Who is a contributing member *)

Lemma contributing_ids_spec userId ids s c :
  c ∈ cc_id <$> userContributingClubs userId ids s ↔
  idIn ids c
  ∧ ∃ club, club ∈ clubs s ∧ club_id club = c
            ∧ (club_userId club = userId
               ∨ ∃ a, a ∈ clubAdmins s ∧ admin_clubId a = c ∧ admin_userId a = userId).
Proof.
  unfold userContributingClubs. rewrite <- list_fmap_compose, list_elem_of_fmap. split.
  - intros (club & -> & [[Hid Hrole] Hclub]%list_elem_of_filter). simpl.
    split; [done|]. exists club. split_and!; [done..|].
    destruct Hrole as [Hown|Hadm]; [by left|]. right.
    destruct (adminsOf s userId (club_id club)) as [|a l] eqn:Ha; [done|].
    assert (Hin : a ∈ adminsOf s userId (club_id club)) by (rewrite Ha; apply list_elem_of_here).
    apply list_elem_of_filter in Hin as [[? ?] ?]. by exists a.
  - intros (Hid & club & Hclub & <- & Hrole). exists club. split; [done|].
    apply list_elem_of_filter. split; [|done]. split; [done|].
    destruct Hrole as [Hown|(a & Ha & Hac & Hau)]; [by left|]. right.
    intros Hnil.
    assert (Hin : a ∈ adminsOf s userId (club_id club))
      by (apply list_elem_of_filter; done).
    rewrite Hnil in Hin. by apply elem_of_nil in Hin.
Qed.

Lemma stranger_not_contributing userId c ids s :
  strangerTo userId c s → c ∉ cc_id <$> userContributingClubs userId ids s.
Proof.
  intros [Howner Hadmin] (_ & club & Hclub & Hid & Hrole)%contributing_ids_spec.
  destruct Hrole as [Hown|(a & Ha & Hac & Hau)].
  - by eapply Howner.
  - by eapply Hadmin.
Qed.

(** ** Who may grant *)

(** X2. A caller who is not a moderator and whom the ownership resolver does
    not report as owner of the resource cannot grant or re-scope it: whatever
    the request, [upsertClubResource] and [updateClubResource] throw
    [AuthorizationError] and leave the world as it was. *)
Theorem grant_rejects_non_owner (svc : Services) (userId : Z) (e : Entity) (w : World)
    (o : EntityOwnership) :
  head (entityOwnership svc (store w) userId [e]) = Some o →
  isOwner o = false →
  (∀ cs, upsertClubResource svc userId false e cs w = (Throw AuthorizationError, w))
  ∧ (∀ c tierIds,
       updateClubResource svc userId false e c tierIds w = (Throw AuthorizationError, w)).
Proof.
  intros Ho Hown.
  assert (Hrun : notOwnerNorModerator svc userId false e w = (Ok true, w)).
  { unfold notOwnerNorModerator. by rewrite run_query, Ho, Hown. }
  split.
  - intros cs. unfold upsertClubResource. by rewrite run_bind, Hrun.
  - intros c tierIds. unfold updateClubResource. by rewrite run_bind, Hrun.
Qed.

Lemma grant_rejects_non_owner_witness :
  upsertClubResource scenarioServices 2 false resourceR [mkClubScope 20 None] publicWorld
  = (Throw AuthorizationError, publicWorld).
Proof.
  apply (proj1 (grant_rejects_non_owner scenarioServices 2 resourceR publicWorld
                  (mkEntityOwnership 100 ModelVersion false) eq_refl eq_refl)).
Defined.

(** X3. A request is rejected as a whole when one of its clubs is a club the
    caller neither owns nor administers: the owner of the resource gets
    [AuthorizationError] and nothing is written, also for the clubs of the
    request that are the caller's own. *)
Theorem upsertClubResource_rejects_foreign_club (svc : Services) (userId : Z) (e : Entity)
    (cs : list ClubScope) (w : World) (c : ClubScope) :
  mayGate svc userId false e (store w) →
  c ∈ cs →
  strangerTo userId (clubId c) (store w) →
  upsertClubResource svc userId false e cs w = (Throw AuthorizationError, w).
Proof.
  intros Hgate Hc Hstranger. unfold upsertClubResource.
  rewrite run_bind, (notOwnerNorModerator_allows _ _ _ _ _ Hgate), run_query.
  assert (Hguard :
    existsb (λ c, negb (bool_decide
               (c ∈ cc_id <$> userContributingClubs userId (Some (clubId <$> cs)) (store w))))
            (clubId <$> cs) = true); [|by rewrite Hguard].
  apply existsb_exists. exists (clubId c). split.
  - apply list_elem_of_In, list_elem_of_fmap. by exists c.
  - apply negb_true_iff, bool_decide_eq_false. by apply stranger_not_contributing.
Qed.

Lemma upsertClubResource_rejects_foreign_club_witness :
  upsertClubResource scenarioServices 1 false resourceR
    [mkClubScope 10 None; mkClubScope 20 None] publicWorld
  = (Throw AuthorizationError, publicWorld).
Proof.
  apply (upsertClubResource_rejects_foreign_club scenarioServices 1 resourceR _ publicWorld
           (mkClubScope 20 None)).
  - right. eexists. split; vm_compute; reflexivity.
  - apply list_elem_of_further, list_elem_of_here.
  - split.
    + intros club Hclub Hid. each_member Hclub; vm_compute in Hid |- *; congruence.
    + intros a Ha. vm_compute in Ha. by apply elem_of_nil in Ha.
Defined.

Lemma club_level_request_insertable e userId C s :
  requestInsertable e userId [mkClubScope C None] s.
Proof.
  unfold requestInsertable. cbn [entityAccess deleteAccess setEntityAccess].
  apply insertable_after_delete.
  - intros a Ha. cbn in Ha. apply list_elem_of_singleton in Ha. subst a.
    unfold accessInScope, grant. simpl. split_and!; [done..|].
    left. split; [apply list_elem_of_here | done].
  - apply NoDup_singleton.
Qed.

(** X4. Any admin row makes its holder a contributing member: the owner of a
    resource who has an admin row in a club, whatever permissions the row
    lists, may gate the resource behind that club.  The call completes, the
    [Club] grant is in the table and the resource is [Private]. *)
Theorem upsertClubResource_any_admin_may_grant (svc : Services) (userId : Z)
    (isModerator : bool) (e : Entity) (w : World) (club : Club) (a : ClubAdmin) :
  mayGate svc userId isModerator e (store w) →
  club ∈ clubs (store w) →
  a ∈ clubAdmins (store w) →
  admin_clubId a = club_id club →
  admin_userId a = userId →
  ∃ w', upsertClubResource svc userId isModerator e [mkClubScope (club_id club) None] w
        = (Ok tt, w')
        ∧ grant e AccessorType.Club userId (club_id club) ∈ entityAccess (store w')
        ∧ availabilityOf (store w') e = Private.
Proof.
  intros Hgate Hclub Ha Hac Hau.
  assert (Hall : contributesToAll userId isModerator
                   (clubId <$> [mkClubScope (club_id club) None]) (store w)).
  { right. intros c Hc. cbn in Hc. apply list_elem_of_singleton in Hc. subst c.
    apply contributing_ids_spec. split; [simpl; apply list_elem_of_here|].
    exists club. split_and!; [done..|]. right. by exists a. }
  assert (Hne : [mkClubScope (club_id club) None] ≠ []) by done.
  destruct (upsertClubResource_grant_cases svc userId isModerator e _ w Hne Hgate Hall)
    as [[_ Hrun]|[Hno _]]; [|by destruct Hno; apply club_level_request_insertable].
  eexists. split; [exact Hrun|]. split.
  - cbn. apply elem_of_app. right. apply list_elem_of_here.
  - apply availabilityOf_mark_same.
Qed.

Lemma upsertClubResource_any_admin_may_grant_witness :
  ∃ w', upsertClubResource scenarioServices 1 false resourceR [mkClubScope 20 None]
          publicWithAdmins
        = (Ok tt, w')
        ∧ grant resourceR AccessorType.Club 1 20 ∈ entityAccess (store w').
Proof.
  destruct (upsertClubResource_any_admin_may_grant scenarioServices 1 false resourceR
              publicWithAdmins clubB (mkClubAdmin 20 1 []))
    as (w' & Hrun & Hin & _).
  - right. eexists. split; vm_compute; reflexivity.
  - apply list_elem_of_further, list_elem_of_here.
  - by_compute.
  - reflexivity.
  - reflexivity.
  - exists w'. split; [exact Hrun | exact Hin].
Defined.

(** ** Replaying and undoing a grant *)



Lemma canRemoveResource_mayGate svc userId isModerator e c w :
  mayGate svc userId isModerator e (store w) →
  canRemoveResource svc userId isModerator e c w = (Ok true, w).
Proof.
  intros Hgate. unfold canRemoveResource. rewrite !run_query.
  destruct isModerator; [reflexivity|].
  destruct Hgate as [|(o & -> & ->)]; [discriminate | reflexivity].
Qed.

Lemma flatTierIds_spec cs t :
  t ∈ flatTierIds cs ↔ ∃ c ids, c ∈ cs ∧ clubTierIds c = Some ids ∧ t ∈ ids.
Proof.
  unfold flatTierIds. rewrite list_elem_of_join. split.
  - intros (ids & Ht & (c & Hc & Hids)%list_elem_of_omap). by exists c, ids.
  - intros (c & ids & Hc & Hids & Ht). exists ids. split; [done|].
    apply list_elem_of_omap. by exists c.
Qed.

Lemma requestedGrants_in_scope e userId cs tierIds a :
  (∀ t, t ∈ flatTierIds cs → t ∈ tierIds) →
  a ∈ requestedGrants e userId cs →
  accessInScope e (clubId <$> cs) tierIds a.
Proof.
  intros Hreg Ha. destruct (requestedGrants_isGrantOf _ _ _ _ Ha) as [Hto Htoty].
  apply requestedGrants_spec in Ha as [_ Hreq]. unfold accessInScope.
  split_and!; [done..|].
  destruct Hreq as [[Hty (c & Hc & _ & Hid)]|[Hty (c & ids & Hc & Hids & Hid)]].
  - left. split; [|done]. rewrite Hid. apply list_elem_of_fmap. by exists c.
  - right. split; [|done]. apply Hreg, flatTierIds_spec. by exists c, ids.
Qed.

Lemma filter_idem {A} (P : A → Prop) `{!∀ x, Decision (P x)} (l : list A) :
  filter P (filter P l) = filter P l.
Proof. apply filter_filter_keep. by intros x _ HP. Qed.





(** X6. Revoking undoes a grant.  After the resource is granted to one club
    (at club level, or for tiers the registry holds for that club) and then
    removed from that club by the same caller, the grant table is the original
    table without the rows of the club's id-space; for a resource that had no
    grant at all the table is the original one and the resource is [Public]
    again. *)
Theorem grant_then_revoke (svc : Services) (userId : Z) (isModerator : bool)
    (e : Entity) (c : Z) (tiers : option (list Z)) (w : World) :
  (∀ s, mayGate svc userId isModerator e s) →
  contributesToAll userId isModerator [c] (store w) →
  (∀ t, t ∈ default [] tiers → t ∈ tier_id <$> tiersOfClubs [c] (store w)) →
  let w1 := (upsertClubResource svc userId isModerator e [mkClubScope c tiers] w).2 in
  let out := removeClubResource svc userId isModerator e c w1 in
  out.1 = Ok tt
  ∧ entityAccess (store out.2)
    = filter (λ a, ¬ accessInScope e [c] (tier_id <$> tiersOfClubs [c] (store w)) a)
             (entityAccess (store w))
  ∧ (grantsOf (store w) e = [] →
     entityAccess (store out.2) = entityAccess (store w)
     ∧ availabilityOf (store out.2) e = Public).
Proof.
  intros Hgate Hall Hreg w1 out.
  assert (Hne : [mkClubScope c tiers] ≠ []) by done.
  set (tierIds := tier_id <$> tiersOfClubs [c] (store w)) in *.
  set (req := requestedGrants e userId [mkClubScope c tiers]).
  assert (Hw1 : clubTiers (store w1) = clubTiers (store w)
                ∧ filter (λ a, ¬ accessInScope e [c] tierIds a) (entityAccess (store w1))
                  = filter (λ a, ¬ accessInScope e [c] tierIds a) (entityAccess (store w))).
  { subst w1.
    destruct (upsertClubResource_grant_cases svc userId isModerator e _ w Hne (Hgate _) Hall)
      as [[_ Hrun]|[_ Hrun]]; rewrite Hrun; cbn [snd store]; [|done].
    split; [reflexivity|]. cbn. fold tierIds req.
    rewrite filter_app, filter_idem.
    rewrite (filter_none _ req), app_nil_r; [done|].
    intros a Ha Hout. apply Hout.
    apply (requestedGrants_in_scope e userId [mkClubScope c tiers]); [|done].
    intros t (c' & ids & Hc' & Hids & Ht)%flatTierIds_spec.
    apply list_elem_of_singleton in Hc'. subst c'. simpl in Hids.
    apply Hreg. by rewrite Hids. }
  destruct Hw1 as [Htiers Hfilter].
  destruct (removeClubResource_store svc userId isModerator e c w1
              (canRemoveResource_mayGate _ _ _ _ _ _ (Hgate _))) as [Hok Hstore].
  subst out. split; [exact Hok|]. rewrite Hstore. clear Hok Hstore.
  assert (Hids : tier_id <$> tiersOfClubs [c] (store w1) = tierIds).
  { subst tierIds. unfold tiersOfClubs. by rewrite Htiers. }
  rewrite Hids.
  assert (Haccess : entityAccess (deleteAccess e [c] tierIds (store w1))
                    = filter (λ a, ¬ accessInScope e [c] tierIds a) (entityAccess (store w)))
    by exact Hfilter.
  split.
  - destruct (decide _); exact Haccess.
  - intros Hnone.
    assert (Hkeep : filter (λ a, ¬ accessInScope e [c] tierIds a) (entityAccess (store w))
                    = entityAccess (store w)).
    { clear Haccess Hfilter. unfold grantsOf in Hnone.
      induction (entityAccess (store w)) as [|a l IH]; [done|].
      rewrite filter_cons in Hnone. destruct (decide _) as [Hin|Hout]; [done|].
      rewrite filter_cons_True; [by rewrite IH|].
      intros (Hid & Hty & _). by apply Hout. }
    assert (Hgone : grantsOf (deleteAccess e [c] tierIds (store w1)) e = []).
    { unfold grantsOf. by rewrite Haccess, Hkeep. }
    rewrite decide_True by exact Hgone. split.
    + change (entityAccess (markAvailability e Public ?s)) with (entityAccess s).
      by rewrite Haccess.
    + apply availabilityOf_mark_same.
Qed.

Lemma grant_then_revoke_witness :
  store (removeClubResource scenarioServices 1 false resourceR 10
           (upsertClubResource scenarioServices 1 false resourceR
              [mkClubScope 10 (Some [2])] publicWorld).2).2
  = store publicWorld.
Proof.
  destruct (grant_then_revoke scenarioServices 1 false resourceR 10 (Some [2]) publicWorld)
    as (_ & _ & Hback).
  - intros s. right. eexists. split; reflexivity.
  - right. intros c Hc. each_member Hc. by_compute.
  - intros t Ht. each_member Ht. by_compute.
  - vm_compute. reflexivity.
Defined.

(** ** What the entitlement operations never touch *)

Lemma touchesOnly_refl e s : touchesOnly e s s.
Proof. unfold touchesOnly. split_and!; done. Qed.

Lemma touchesOnly_replace e clubIds tierIds rows s s' :
  clubs s' = clubs s → clubAdmins s' = clubAdmins s →
  clubTiers s' = clubTiers s → clubMemberships s' = clubMemberships s →
  entityAccess s'
  = filter (λ a, ¬ accessInScope e clubIds tierIds a) (entityAccess s) ++ rows →
  (∀ a, a ∈ rows → isGrantOf e a) →
  (∀ e', e' ≠ e → availabilityOf s' e' = availabilityOf s e') →
  touchesOnly e s s'.
Proof.
  intros Hc Ha Ht Hm Haccess Hrows Hav. unfold touchesOnly. split_and!; try done.
  - intros a Hin Hother. rewrite Haccess. apply elem_of_app. left.
    apply list_elem_of_filter. split; [|done].
    intros (Hid & Hty & Hkind). destruct Hother as [Hnot|Huser].
    + by apply Hnot.
    + destruct Hkind as [[_ Hk]|[_ Hk]]; congruence.
  - intros e' Hne. split; [|by apply Hav].
    unfold grantsOf. rewrite Haccess, filter_app, (filter_none _ rows), app_nil_r.
    + apply filter_filter_keep. intros a _ [Hid Hty] (Hid' & Hty' & _).
      apply Hne. destruct e, e'. simpl in *. congruence.
    + intros a Hin [Hid Hty]. destruct (Hrows a Hin) as [Hid' Hty'].
      apply Hne. destruct e, e'. simpl in *. congruence.
Qed.

Lemma touchesOnly_mark e av s s' :
  touchesOnly e s s' → touchesOnly e s (markAvailability e av s').
Proof.
  intros (Hc & Ha & Ht & Hm & Hrows & Hother). unfold touchesOnly.
  split_and!; try done. intros e' Hne. destruct (Hother e' Hne) as [Hg Hav].
  split; [exact Hg|]. by rewrite availabilityOf_mark_other.
Qed.

Lemma touchesOnly_delete e clubIds tierIds s :
  touchesOnly e s (deleteAccess e clubIds tierIds s).
Proof.
  apply (touchesOnly_replace e clubIds tierIds []); try done.
  - cbn. by rewrite app_nil_r.
  - intros a Ha. by apply elem_of_nil in Ha.
Qed.

(** X7. The three entitlement operations touch one resource only.  Whatever
    the caller, the request and the outcome, a call on the resource [e] leaves
    the club, admin, tier and membership tables as they were, keeps every
    grant row that is not a [Club] or [ClubTier] grant of [e] (the grants of
    other resources, and the [User] grants of [e] itself), and changes neither
    the grants nor the availability of any other resource. *)
Theorem entitlement_touches_only_its_resource (svc : Services) (userId : Z)
    (isModerator : bool) (e : Entity) (w : World) :
  (∀ cs, touchesOnly e (store w) (store (upsertClubResource svc userId isModerator e cs w).2))
  ∧ (∀ c tierIds,
       touchesOnly e (store w)
         (store (updateClubResource svc userId isModerator e c tierIds w).2))
  ∧ (∀ c, touchesOnly e (store w) (store (removeClubResource svc userId isModerator e c w).2)).
Proof.
  split_and!.
  - intros cs.
    destruct (upsertClubResource_outcome svc userId isModerator e cs w)
      as [[err Hrun]|[(Hne & Hgate & Hall)|(-> & Hgate & details & Hd)]].
    + rewrite Hrun. apply touchesOnly_refl.
    + destruct (upsertClubResource_grant_cases svc userId isModerator e cs w Hne Hgate Hall)
        as [[_ Hrun]|[_ Hrun]]; rewrite Hrun; cbn [snd store];
        [|apply touchesOnly_refl].
      apply touchesOnly_mark.
      eapply touchesOnly_replace; try reflexivity. apply requestedGrants_isGrantOf.
    + rewrite (upsertClubResource_public_run _ _ _ _ _ _ Hgate Hd). cbn [snd].
      destruct (decide _); cbn [store].
      * apply touchesOnly_mark, touchesOnly_delete.
      * apply touchesOnly_delete.
  - intros c tierIds.
    destruct (updateClubResource_outcome svc userId isModerator e c tierIds w)
      as [[err Hrun]|[Hgate Hall]].
    + rewrite Hrun. apply touchesOnly_refl.
    + rewrite (updateClubResource_run _ _ _ _ _ _ _ Hgate Hall).
      destruct (decide _); cbn [snd store]; [|apply touchesOnly_refl].
      eapply touchesOnly_replace; try reflexivity.
      intros a Ha. destruct (bool_decide _).
      * apply list_elem_of_singleton in Ha. by subst a.
      * apply list_elem_of_fmap in Ha as (t & -> & _). done.
  - intros c.
    destruct (removeClubResource_outcome svc userId isModerator e c w) as [[err Hrun]|Hcan].
    + rewrite Hrun. apply touchesOnly_refl.
    + destruct (removeClubResource_store svc userId isModerator e c w Hcan) as [_ Hstore].
      rewrite Hstore. destruct (decide _).
      * apply touchesOnly_mark, touchesOnly_delete.
      * apply touchesOnly_delete.
Qed.

(** ** updateClubResource *)

(** X8. [updateClubResource] replaces the grants of one club.  For a caller
    who passes the guards and names tiers the registry holds for the club,
    none of them twice, the call commits once; the rows of the resource in the
    club's id-space are afterwards exactly the requested ones (one [Club] row
    when no tier is named, else one [ClubTier] row per named tier), every row
    outside that id-space is kept, in order, and the availability column is
    not written.  When a tier is named twice, the insert throws on the key and
    the transaction is rolled back. *)
Theorem updateClubResource_replaces_one_club (svc : Services) (userId : Z)
    (isModerator : bool) (e : Entity) (c : Z) (tierIds : option (list Z)) (w : World) :
  mayGate svc userId isModerator e (store w) →
  contributesToAll userId isModerator [c] (store w) →
  (∀ t, t ∈ default [] tierIds → t ∈ tier_id <$> tiersOfClubs [c] (store w)) →
  let inClub := accessInScope e [c] (tier_id <$> tiersOfClubs [c] (store w)) in
  (NoDup (default [] tierIds) →
   ∃ s',
     updateClubResource svc userId isModerator e c tierIds w
     = (Ok tt, mkWorld s' (trace w ++ [Commit s']))
     ∧ filter inClub (entityAccess s')
       = match default [] tierIds with
         | [] => [grant e AccessorType.Club userId c]
         | ts => grant e AccessorType.ClubTier userId <$> ts
         end
     ∧ filter (λ a, ¬ inClub a) (entityAccess s')
       = filter (λ a, ¬ inClub a) (entityAccess (store w))
     ∧ availability s' = availability (store w))
  ∧ (¬ NoDup (default [] tierIds) →
     updateClubResource svc userId isModerator e c tierIds w
     = (Throw UniqueConstraintViolation, w)).
Proof.
  intros Hgate Hall Hreg inClub.
  rewrite (updateClubResource_run _ _ _ _ _ _ _ Hgate Hall).
  set (rows := if bool_decide (length (default [] tierIds) = 0%nat)
               then [grant e AccessorType.Club userId c]
               else grant e AccessorType.ClubTier userId <$> default [] tierIds).
  assert (Hrows : ∀ a, a ∈ rows → inClub a).
  { intros a Ha. subst rows inClub. unfold accessInScope.
    destruct (bool_decide _).
    - apply list_elem_of_singleton in Ha. subst a. simpl. split_and!; [done..|].
      left. split; [apply list_elem_of_here | done].
    - apply list_elem_of_fmap in Ha as (t & -> & Ht). simpl. split_and!; [done..|].
      right. split; [by apply Hreg | done]. }
  assert (Hshape : rows = match default [] tierIds with
                          | [] => [grant e AccessorType.Club userId c]
                          | ts => grant e AccessorType.ClubTier userId <$> ts
                          end).
  { subst rows. destruct (default [] tierIds); reflexivity. }
  assert (Hkey : insertable
                   (entityAccess (deleteAccess e [c] (tier_id <$> tiersOfClubs [c] (store w))
                                               (store w))) rows
                 ↔ NoDup (default [] tierIds)).
  { cbn [entityAccess deleteAccess setEntityAccess].
    rewrite (insertable_after_delete e [c] _ _ rows Hrows). rewrite Hshape.
    destruct (default [] tierIds) as [|t ts].
    - split; [intros _; apply NoDup_nil_2 | intros _; apply NoDup_singleton].
    - rewrite <- list_fmap_compose. split.
      + apply NoDup_fmap_1.
      + apply NoDup_fmap_2. intros x y Heq. by injection Heq. }
  split.
  - intros Hdup. rewrite decide_True by (by apply Hkey).
    eexists. split; [reflexivity|].
    cbn [entityAccess createAccess setEntityAccess deleteAccess availability].
    fold inClub. split_and!.
    + rewrite filter_app, filter_filter_none by (intros; tauto).
      rewrite <- Hshape. simpl. clear Hshape Hkey.
      induction rows as [|a rows IH]; [done|].
      rewrite filter_cons_True by (apply Hrows, list_elem_of_here).
      f_equal. apply IH. intros b Hb. by apply Hrows, list_elem_of_further.
    + rewrite filter_app, filter_idem, (filter_none _ rows), app_nil_r; [done|].
      intros a Ha Hout. by apply Hout, Hrows.
    + reflexivity.
  - intros Hdup. rewrite decide_False; [reflexivity|]. intros Hins. by apply Hdup, Hkey.
Qed.

Lemma updateClubResource_replaces_one_club_witness :
  (∃ s', updateClubResource scenarioServices 1 false resourceR 10 (Some [2]) gatedByAAndUser
         = (Ok tt, mkWorld s' [Commit s'])
         ∧ entityAccess s' = [grant resourceR AccessorType.User 1 9;
                              grant resourceR AccessorType.ClubTier 1 2])
  ∧ updateClubResource scenarioServices 1 false resourceR 10 (Some [2; 2]) gatedByAAndUser
    = (Throw UniqueConstraintViolation, gatedByAAndUser).
Proof.
  split.
  - destruct (proj1 (updateClubResource_replaces_one_club scenarioServices 1 false resourceR 10
                       (Some [2]) gatedByAAndUser
                       ltac:(right; eexists; split; reflexivity)
                       ltac:(right; intros c Hc; each_member Hc; by_compute)
                       ltac:(intros t Ht; each_member Ht; by_compute)))
      as (s' & Hrun & _); [by_compute|].
    exists s'. split; [exact Hrun|].
    assert (Hs : Some s' = Some (store (updateClubResource scenarioServices 1 false resourceR
                                          10 (Some [2]) gatedByAAndUser).2))
      by (by rewrite Hrun).
    injection Hs as ->. vm_compute. reflexivity.
  - apply (updateClubResource_replaces_one_club scenarioServices 1 false resourceR 10
             (Some [2; 2]) gatedByAAndUser).
    + right. eexists. split; reflexivity.
    + right. intros c Hc. each_member Hc. by_compute.
    + intros t Ht. each_member Ht; by_compute.
    + by_compute.
Defined.

(** X9. On a resource that is already gated, [updateClubResource] keeps the
    availability invariant: if the invariant holds, the resource is not
    [Public] and the caller passes the guards, the invariant holds after the
    call. *)
Theorem updateClubResource_keeps_invariant_when_gated (svc : Services) (userId : Z)
    (isModerator : bool) (e : Entity) (c : Z) (tierIds : option (list Z)) (w : World) :
  mayGate svc userId isModerator e (store w) →
  contributesToAll userId isModerator [c] (store w) →
  availabilityInvariant (store w) →
  availabilityOf (store w) e ≠ Public →
  availabilityInvariant (store (updateClubResource svc userId isModerator e c tierIds w).2).
Proof.
  intros Hgate Hall Hinv Hgated.
  rewrite (updateClubResource_run _ _ _ _ _ _ _ Hgate Hall).
  destruct (decide _) as [_|_]; cbn [snd store]; [|exact Hinv].
  set (rows := if bool_decide (length (default [] tierIds) = 0%nat)
               then [grant e AccessorType.Club userId c]
               else grant e AccessorType.ClubTier userId <$> default [] tierIds).
  assert (Hrows : ∀ a, a ∈ rows → isGrantOf e a).
  { intros a Ha. subst rows. destruct (bool_decide _).
    - apply list_elem_of_singleton in Ha. by subst a.
    - apply list_elem_of_fmap in Ha as (t & -> & _). done. }
  assert (Hsome : rows ≠ []).
  { subst rows. destruct (bool_decide _) eqn:Hlen; [done|].
    apply bool_decide_eq_false in Hlen.
    destruct (default [] tierIds); [done | done]. }
  apply (invariant_step (store w) _ e Hinv).
  - intros e' Hne. split; [|reflexivity].
    by rewrite (grantsOf_createAccess_other e), grantsOf_deleteAccess_other.
  - change (availabilityOf (createAccess rows ?s) e) with (availabilityOf (store w) e).
    rewrite grantsOf_createAccess_same by done. split; [done|].
    intros [_ Hnil]%app_eq_nil. done.
Qed.

Lemma updateClubResource_keeps_invariant_when_gated_witness :
  availabilityInvariant
    (store (updateClubResource scenarioServices 1 false resourceR 10 (Some [1]) gatedByA).2).
Proof.
  apply updateClubResource_keeps_invariant_when_gated.
  - right. eexists. split; reflexivity.
  - right. intros c Hc. each_member Hc. by_compute.
  - intros e. unfold availabilityOf, grantsOf. cbn [store gatedByA scenarioStore availability
      entityAccess].
    destruct (decide (e = resourceR)) as [->|Hne].
    + split; intros H; vm_compute in H; discriminate.
    + rewrite lookup_singleton_ne by (intros Heq; by apply Hne, entity_key_inj).
      split; [intros _|done]. apply filter_none. intros a Ha [Hid Hty].
      each_member Ha. apply Hne. destruct e as [i t].
      vm_compute in Hid, Hty. by subst i t.
  - vm_compute. discriminate.
Defined.

(** ** removeClubResource *)

(** X10. A completed [removeClubResource] removes the club from the
    resource and nothing else: the grant table is the old one without the rows
    of the club's id-space (its [Club] row and the [ClubTier] rows of the tiers
    the registry holds for it).  If the resource is then left without any grant
    its availability is [Public]; as long as some other grant is there, a
    [User] grant or a grant of another club, the availability column is not
    written. *)
Theorem removeClubResource_revokes (svc : Services) (userId : Z) (isModerator : bool)
    (e : Entity) (c : Z) (w : World) :
  (removeClubResource svc userId isModerator e c w).1 = Ok tt →
  let s' := store (removeClubResource svc userId isModerator e c w).2 in
  entityAccess s'
  = filter (λ a, ¬ accessInScope e [c] (tier_id <$> tiersOfClubs [c] (store w)) a)
           (entityAccess (store w))
  ∧ (grantsOf s' e = [] → availabilityOf s' e = Public)
  ∧ (grantsOf s' e ≠ [] → availability s' = availability (store w)).
Proof.
  intros Hok s'. subst s'.
  destruct (removeClubResource_outcome svc userId isModerator e c w) as [[err Hrun]|Hcan].
  { rewrite Hrun in Hok. discriminate. }
  destruct (removeClubResource_store svc userId isModerator e c w Hcan) as [_ Hstore].
  rewrite Hstore.
  set (s1 := deleteAccess e [c] (tier_id <$> tiersOfClubs [c] (store w)) (store w)).
  destruct (decide (grantsOf s1 e = [])) as [Hnil|Hsome].
  - split_and!; try reflexivity.
    + intros _. apply availabilityOf_mark_same.
    + intros Hgr. by destruct Hgr.
  - split_and!; try reflexivity. intros Hgr. by destruct Hsome.
Qed.

Lemma removeClubResource_revokes_witness :
  entityAccess (store (removeClubResource scenarioServices 1 false resourceR 10
                         gatedByAAndUser).2)
  = [grant resourceR AccessorType.User 1 9]
  ∧ availabilityOf (store (removeClubResource scenarioServices 1 false resourceR 10
                             gatedByAAndUser).2) resourceR = Private.
Proof.
  destruct (removeClubResource_revokes scenarioServices 1 false resourceR 10 gatedByAAndUser)
    as (Haccess & _ & Hkept).
  - vm_compute. reflexivity.
  - split.
    + rewrite Haccess. vm_compute. reflexivity.
    + unfold availabilityOf. rewrite Hkept.
      * vm_compute. reflexivity.
      * vm_compute. discriminate.
Defined.

(** X11. Who may revoke besides moderators and the owner of the resource.
    For a caller who is neither, and whose first contributing-club row for the
    club exists, the call goes through exactly when the caller owns the club or
    that row's admin entry lists [ManageResources]; otherwise it throws
    [AuthorizationError] and writes nothing. *)
Theorem removeClubResource_by_club_role (svc : Services) (userId : Z) (e : Entity) (c : Z)
    (w : World) (o : EntityOwnership) (uc : ContributingClub) :
  head (entityOwnership svc (store w) userId [e]) = Some o →
  isOwner o = false →
  head (userContributingClubs userId (Some [c]) (store w)) = Some uc →
  let allowed := cc_userId uc = userId
                 ∨ ∃ a, cc_admin uc = Some a ∧ ManageResources ∈ admin_permissions a in
  (allowed → (removeClubResource svc userId false e c w).1 = Ok tt)
  ∧ (¬ allowed → removeClubResource svc userId false e c w = (Throw AuthorizationError, w)).
Proof.
  intros Ho Hown Huc allowed.
  assert (Hcan : canRemoveResource svc userId false e c w
                 = (Ok (bool_decide (cc_userId uc = userId)
                        || match cc_admin uc with
                           | Some a => bool_decide (ManageResources ∈ admin_permissions a)
                           | None => false
                           end), w)).
  { unfold canRemoveResource. rewrite !run_query, Ho, Hown, Huc. simpl.
    destruct (decide (cc_userId uc = userId)) as [Heq|Hne].
    - rewrite !bool_decide_true by congruence. reflexivity.
    - rewrite !bool_decide_false by congruence. reflexivity. }
  split.
  - intros Hallowed.
    assert (Htrue : canRemoveResource svc userId false e c w = (Ok true, w)).
    { rewrite Hcan. do 2 f_equal. destruct Hallowed as [Heq|(a & -> & Hperm)].
      - by rewrite bool_decide_true.
      - rewrite (bool_decide_true (ManageResources ∈ _)) by done. apply orb_true_r. }
    by destruct (removeClubResource_store svc userId false e c w Htrue).
  - intros Hnot. unfold removeClubResource. rewrite run_bind, Hcan.
    assert (Hfalse : bool_decide (cc_userId uc = userId)
                     || match cc_admin uc with
                        | Some a => bool_decide (ManageResources ∈ admin_permissions a)
                        | None => false
                        end = false); [|by rewrite Hfalse].
    apply orb_false_iff. split.
    + apply bool_decide_eq_false. intros Heq. apply Hnot. by left.
    + destruct (cc_admin uc) as [a|] eqn:Ha; [|done].
      apply bool_decide_eq_false. intros Hperm. apply Hnot. right. by exists a.
Qed.

Lemma removeClubResource_by_club_role_witness :
  (removeClubResource scenarioServices 5 false resourceR 10 gatedByAWithAdmins).1 = Ok tt
  ∧ removeClubResource scenarioServices 4 false resourceR 10 gatedByAWithAdmins
    = (Throw AuthorizationError, gatedByAWithAdmins).
Proof.
  split.
  - apply (removeClubResource_by_club_role scenarioServices 5 resourceR 10 gatedByAWithAdmins
             (mkEntityOwnership 100 ModelVersion false)
             (mkContributingClub 10 "A" 1 (Some (mkClubAdmin 10 5 [ManageResources])))
             eq_refl eq_refl eq_refl).
    right. eexists. split; [reflexivity | apply list_elem_of_here].
  - apply (removeClubResource_by_club_role scenarioServices 4 resourceR 10 gatedByAWithAdmins
             (mkEntityOwnership 100 ModelVersion false)
             (mkContributingClub 10 "A" 1 (Some (mkClubAdmin 10 4 [])))
             eq_refl eq_refl eq_refl).
    intros [Heq|(a & Ha & Hperm)]; [discriminate|].
    injection Ha as <-. by apply elem_of_nil in Hperm.
Defined.

(** ** getClubTiers *)

Lemma getClubTiers_run input userId isModerator w :
  getClubTiers input userId isModerator w
  = (Ok (if negb (truthy (q_clubId input))
            && bool_decide (length (default [] (q_clubIds input)) = 0%nat)
         then []
         else
           let filters := tierFilter input userId isModerator (store w) in
           (λ t, mkClubTierView t
                   (length (filter (λ m, membership_clubTierId m = tier_id t)
                                   (clubMemberships (store w)))))
           <$> merge_sort byUnitAmount
                 (filter (λ t, tierWhere input filters.1 filters.2 t) (clubTiers (store w)))),
     w).
Proof.
  unfold getClubTiers. destruct (_ && _); [reflexivity|]. by rewrite run_query.
Qed.

(** X12. [getClubTiers] only reads, and returns the tiers cheapest first:
    the world is unchanged, every tier returned is a row of the tier table
    with the number of its membership rows, and the unit amounts never
    decrease along the list. *)
Theorem getClubTiers_sorted_by_price (input : GetClubTiersInput) (userId : option Z)
    (isModerator : bool) (w : World) :
  ∃ l, getClubTiers input userId isModerator w = (Ok l, w)
       ∧ StronglySorted
           (λ a b, tier_unitAmount (view_tier a) ≤ tier_unitAmount (view_tier b)) l
       ∧ ∀ v, v ∈ l →
              view_tier v ∈ clubTiers (store w)
              ∧ view_memberships v
                = length (filter (λ m, membership_clubTierId m = tier_id (view_tier v))
                                 (clubMemberships (store w))).
Proof.
  eexists. split; [apply getClubTiers_run|].
  destruct (_ && _).
  { split; [constructor | intros v Hv; by apply elem_of_nil in Hv]. }
  cbn zeta.
  assert (Htotal : Total byUnitAmount) by (intros a b; unfold byUnitAmount; lia).
  assert (Htrans : Transitive byUnitAmount) by (intros a b c; unfold byUnitAmount; lia).
  split.
  - apply (StronglySorted_fmap _ byUnitAmount); [by intros x y|].
    by apply StronglySorted_merge_sort.
  - intros v (t & -> & Ht)%list_elem_of_fmap. simpl. split; [|done].
    rewrite merge_sort_Permutation in Ht. by apply list_elem_of_filter in Ht as [_ Ht].
Qed.

(** X13. What an outsider sees.  A caller who is not a moderator and who
    queries some club they neither own nor administer only gets tiers that are
    listed and joinable, whatever [listedOnly] and [joinableOnly] they passed;
    and every tier returned belongs to a queried club. *)
Theorem getClubTiers_outsider_sees_listed_joinable (input : GetClubTiersInput)
    (userId : option Z) (w : World) (c : Z) :
  c ∈ queriedClubs input →
  c ∉ contributingIds userId (store w) →
  ∃ l, getClubTiers input userId false w = (Ok l, w)
       ∧ ∀ v, v ∈ l →
              tier_unlisted (view_tier v) = false
              ∧ tier_joinable (view_tier v) = true
              ∧ tier_clubId (view_tier v) ∈ queriedClubs input.
Proof.
  intros Hq Hout. eexists. split; [apply getClubTiers_run|].
  destruct (_ && _); [intros v Hv; by apply elem_of_nil in Hv|].
  cbn zeta. rewrite (getClubTiers_outsider_restricted _ _ _ _ Hq Hout). cbn [fst snd].
  intros v (t & -> & Ht)%list_elem_of_fmap. simpl.
  rewrite merge_sort_Permutation in Ht. apply list_elem_of_filter in Ht as [Hwhere _].
  unfold tierWhere in Hwhere.
  apply andb_prop_elim in Hwhere as [Hwhere _].
  apply andb_prop_elim in Hwhere as [Hwhere Hjoin].
  apply andb_prop_elim in Hwhere as [Hclub Hlisted].
  apply bool_decide_unpack in Hjoin, Hlisted. split_and!; [done..|].
  unfold queriedClubs in *. destruct (truthy (q_clubId input)).
  - apply bool_decide_unpack in Hclub. rewrite Hclub. apply list_elem_of_here.
  - destruct (q_clubIds input) as [ids|]; [by apply bool_decide_unpack in Hclub|].
    by apply elem_of_nil in Hq.
Qed.

Lemma getClubTiers_outsider_sees_listed_joinable_witness :
  getClubTiers (mkGetClubTiersInput (Some 10) None (Some false) (Some false) None)
               (Some 2) false publicWorld
  = (Ok [mkClubTierView tierT1 0], publicWorld).
Proof.
  destruct (getClubTiers_outsider_sees_listed_joinable
              (mkGetClubTiersInput (Some 10) None (Some false) (Some false) None)
              (Some 2) publicWorld 10) as (l & Hrun & _).
  - apply list_elem_of_here.
  - by_compute.
  - rewrite Hrun. f_equal.
    assert (Hl : Some (Ok l) = Some (getClubTiers (mkGetClubTiersInput (Some 10) None
                                       (Some false) (Some false) None)
                                       (Some 2) false publicWorld).1)
      by (by rewrite Hrun).
    injection Hl as ->. vm_compute. reflexivity.
Defined.

(** X23. What a caller who keeps their filter gets.  For a moderator, or a
    caller who contributes to the club named by [clubId] and to every club of
    [clubIds], a query by [clubId] returns exactly the tiers of that club that
    match the request: [listedOnly = true] selects the listed tiers and
    [listedOnly = false] selects the unlisted ones only, [joinableOnly] selects
    on the joinable flag, a non-zero [tierId] selects that tier, and a flag
    that is not given does not select. *)
Theorem getClubTiers_applies_requested_filter (input : GetClubTiersInput)
    (userId : option Z) (isModerator : bool) (w : World) (club : Z) :
  q_clubId input = Some club →
  club ≠ 0 →
  isModerator = true
  ∨ (club ∈ contributingIds userId (store w)
     ∧ ∀ c, c ∈ default [] (q_clubIds input) → c ∈ contributingIds userId (store w)) →
  ∃ l, getClubTiers input userId isModerator w = (Ok l, w)
       ∧ ∀ t, t ∈ view_tier <$> l ↔
              t ∈ clubTiers (store w)
              ∧ tier_clubId t = club
              ∧ (∀ b, q_listedOnly input = Some b → tier_unlisted t = negb b)
              ∧ (∀ b, q_joinableOnly input = Some b → tier_joinable t = b)
              ∧ (truthy (q_tierId input) = true → tier_id t = default 0 (q_tierId input)).
Proof.
  intros Hclub Hnz Hcan. eexists. split; [apply getClubTiers_run|].
  assert (Htruthy : truthy (q_clubId input) = true).
  { rewrite Hclub. simpl. by apply bool_decide_eq_true. }
  rewrite Htruthy. cbn [negb andb]. cbn zeta.
  rewrite getClubTiers_contributor_keeps_filter; last first.
  { destruct Hcan as [Hmod|[Hin Hall]]; [by left|]. right. by rewrite Hclub. }
  cbn [fst snd]. intros t. rewrite <- list_fmap_compose.
  assert (Hid : ∀ l : list ClubTier,
            (view_tier ∘ (λ t, mkClubTierView t
               (length (filter (λ m, membership_clubTierId m = tier_id t)
                               (clubMemberships (store w)))))) <$> l = l).
  { intros l. induction l as [|x l IH]; [done|]. cbn. by rewrite IH. }
  rewrite Hid, merge_sort_Permutation, list_elem_of_filter.
  unfold tierWhere. rewrite Htruthy, Hclub. cbn [default from_option Datatypes.id].
  split.
  - intros [Hwhere Hin].
    apply andb_prop_elim in Hwhere as [Hwhere Htier].
    apply andb_prop_elim in Hwhere as [Hwhere Hjoin].
    apply andb_prop_elim in Hwhere as [Hc Hlisted].
    apply bool_decide_unpack in Hc. split_and!; try done.
    + intros b Hb. rewrite Hb in Hlisted. by apply bool_decide_unpack in Hlisted.
    + intros b Hb. rewrite Hb in Hjoin. by apply bool_decide_unpack in Hjoin.
    + intros Ht. rewrite Ht in Htier. by apply bool_decide_unpack in Htier.
  - intros (Hin & Hc & Hlisted & Hjoin & Htier). split; [|done].
    apply andb_prop_intro. split; [apply andb_prop_intro; split;
                                   [apply andb_prop_intro; split|]|].
    + by apply bool_decide_pack.
    + destruct (q_listedOnly input) as [b|]; [|done]. by apply bool_decide_pack, Hlisted.
    + destruct (q_joinableOnly input) as [b|]; [|done]. by apply bool_decide_pack, Hjoin.
    + destruct (truthy (q_tierId input)); [|done]. by apply bool_decide_pack, Htier.
Qed.

Lemma getClubTiers_applies_requested_filter_witness :
  getClubTiers (mkGetClubTiersInput (Some 10) None (Some false) None None) (Some 1) false
               publicWorld
  = (Ok [mkClubTierView tierT2 0], publicWorld).
Proof.
  destruct (getClubTiers_applies_requested_filter
              (mkGetClubTiersInput (Some 10) None (Some false) None None) (Some 1) false
              publicWorld 10 eq_refl) as (l & Hrun & _).
  - done.
  - right. split; [by_compute|]. intros c Hc. by apply elem_of_nil in Hc.
  - rewrite Hrun. f_equal.
    assert (Hl : Some (Ok l) = Some (getClubTiers (mkGetClubTiersInput (Some 10) None
                                       (Some false) None None)
                                       (Some 1) false publicWorld).1)
      by (by rewrite Hrun).
    injection Hl as ->. vm_compute. reflexivity.
Defined.

(** ** deleteClub *)

(** X14. [deleteClub] turns away a missing club and a caller without
    rights before anything happens: for an id without a club row the call
    throws the record-not-found error of the lookup, for a caller who is
    neither the owner nor a moderator it throws [BadRequestError]; in both
    cases the club table is untouched and no ledger call is made. *)
Theorem deleteClub_rejects (svc : Services) (id userId : Z) (w : World) :
  (head (filter (λ c, club_id c = id) (clubs (store w))) = None →
   ∀ isModerator, deleteClub svc id userId isModerator w = (Throw RecordNotFound, w))
  ∧ (∀ club, head (filter (λ c, club_id c = id) (clubs (store w))) = Some club →
             club_userId club ≠ userId →
             deleteClub svc id userId false w = (Throw BadRequestError, w)).
Proof.
  split.
  - intros Hnone isModerator. unfold deleteClub.
    rewrite run_bind. unfold getClub. by rewrite run_query, Hnone.
  - intros club Hclub Hne.
    assert (Hrun : ∀ k : Club → M Club, (getClub id ≫= k) w = k club w).
    { intros k. unfold getClub. rewrite run_bind, run_query, Hclub. reflexivity. }
    unfold deleteClub. rewrite Hrun. by rewrite bool_decide_true.
Qed.

Lemma deleteClub_rejects_witness :
  deleteClub scenarioServices 10 2 false publicWorld = (Throw BadRequestError, publicWorld)
  ∧ deleteClub scenarioServices 30 1 true publicWorld = (Throw RecordNotFound, publicWorld).
Proof.
  split.
  - apply (proj2 (deleteClub_rejects scenarioServices 10 2 publicWorld) clubA eq_refl).
    vm_compute. discriminate.
  - apply (proj1 (deleteClub_rejects scenarioServices 30 1 publicWorld) eq_refl).
Defined.

(** ** upsertClubTiers *)

Lemma tier_guard_passes userId isModerator clubId s :
  mayEditTiers userId isModerator clubId s →
  bool_decide (Some userId ≠ cc_userId <$> head (userContributingClubs userId (Some [clubId]) s))
  && negb isModerator
  && negb (adminCan (head (userContributingClubs userId (Some [clubId]) s)) ManageTiers)
  = false.
Proof.
  intros [->|(uc & -> & Hrole)]; [by rewrite andb_false_r|].
  destruct isModerator; [by rewrite andb_false_r|]. simpl.
  destruct Hrole as [Hown|(a & Ha & Hperm)].
  - rewrite bool_decide_false; [done|]. intros Hne. apply Hne. by rewrite Hown.
  - unfold adminCan. simpl. rewrite Ha, (bool_decide_true (ManageTiers ∈ _)) by done.
    by rewrite andb_false_r.
Qed.

(** X15. Tier deletion goes by id alone.  A caller who may edit the tiers of
    one club and asks to delete tier ids none of which has a member deletes
    exactly the tiers with those ids, whichever club they belong to: the club
    of the call does not restrict the deletion.  No other table changes. *)
Theorem upsertClubTiers_deletes_by_id (svc : Services) (clubId : Z) (tx : option Client)
    (userId : Z) (isModerator : bool) (ids : list Z) (w : World) :
  mayEditTiers userId isModerator clubId (store w) →
  ids ≠ [] →
  (∀ t, t ∈ clubTiers (store w) → tier_id t ∈ ids → ¬ hasMembers (store w) t) →
  let s' := setClubTiers (filter (λ t, tier_id t ∉ ids) (clubTiers (store w))) (store w) in
  upsertClubTiers svc clubId None (Some ids) tx userId isModerator w
  = (Ok tt, mkWorld s' (committed (default DbWrite tx) w s')).
Proof.
  intros Hmay Hne Hfree s'. unfold upsertClubTiers.
  rewrite run_query, (tier_guard_passes _ _ _ _ Hmay), run_bind.
  assert (Hlen : (0 < length (default [] (Some ids)))%nat).
  { destruct ids; [done | simpl; lia]. }
  rewrite bool_decide_true by exact Hlen. rewrite run_query.
  rewrite (filter_none _ (clubTiers (store w))) by (intros t Ht [Hid Hmem]; by eapply Hfree).
  cbn [head]. unfold execute, committed. simpl. by destruct (default DbWrite tx).
Qed.

Lemma upsertClubTiers_deletes_by_id_witness :
  tier_id <$> clubTiers (store (upsertClubTiers scenarioServices 10 None (Some [3]) None
                                  1 false publicWorld).2)
  = [1; 2].
Proof.
  rewrite (upsertClubTiers_deletes_by_id scenarioServices 10 None 1 false [3] publicWorld).
  - vm_compute. reflexivity.
  - right. eexists. split; [reflexivity | by left].
  - done.
  - intros t Ht _. each_member Ht; vm_compute; by intros [].
Defined.

Lemma nextTierId_above ts x : x ∈ tier_id <$> ts → x < nextTierId ts.
Proof.
  unfold nextTierId. induction ts as [|t ts IH]; [by intros ?%elem_of_nil|].
  cbn. intros [->|Hx]%elem_of_cons; [lia|]. specialize (IH Hx). lia.
Qed.

Lemma foldl_createTier_fresh clubId imgs ts old :
  (∀ t, t ∈ ts → in_id t = None) →
  ∃ new, foldl (createTier clubId imgs) old ts = old ++ new
         ∧ tier_name <$> new = in_name <$> ts
         ∧ tier_unitAmount <$> new = in_unitAmount <$> ts
         ∧ (∀ r, r ∈ new → tier_clubId r = clubId ∧ tier_id r ∉ tier_id <$> old)
         ∧ NoDup (tier_id <$> new).
Proof.
  revert old. induction ts as [|t ts IH]; intros old Hids.
  { exists []. rewrite app_nil_r. split_and!; try done.
    - intros r Hr. by apply elem_of_nil in Hr.
    - constructor. }
  assert (Ht : in_id t = None) by (apply Hids, list_elem_of_here).
  set (r := mkClubTier (nextTierId old) clubId (in_name t) (in_description t)
              (in_unitAmount t) (in_currency t) (in_joinable t) (in_unlisted t)
              (in_memberLimit t) (resolveCoverImageId imgs (in_coverImage t))).
  assert (Hstep : createTier clubId imgs old t = old ++ [r]).
  { unfold createTier. by rewrite Ht. }
  destruct (IH (old ++ [r])) as (new & Hfold & Hnames & Hamounts & Hnew & Hdup).
  { intros t' Ht'. by apply Hids, list_elem_of_further. }
  exists (r :: new). cbn [foldl]. rewrite Hstep, Hfold, <- app_assoc.
  split_and!; try done.
  - cbn. by rewrite Hnames.
  - cbn. by rewrite Hamounts.
  - intros r' [->|Hr']%elem_of_cons.
    + split; [done|]. intros Hin%nextTierId_above. simpl in Hin. lia.
    + destruct (Hnew r' Hr') as [Hclub Hfresh]. split; [done|].
      intros Hin. apply Hfresh. rewrite fmap_app. apply elem_of_app. by left.
  - cbn. constructor; [|done]. intros (r' & Hid & Hr')%list_elem_of_fmap.
    destruct (Hnew r' Hr') as [_ Hfresh]. apply Hfresh.
    rewrite fmap_app. apply elem_of_app. right. cbn. rewrite <- Hid.
    apply list_elem_of_here.
Qed.

Lemma upsertClubTiers_create_run svc clubId dels tx userId isModerator ts w :
  mayEditTiers userId isModerator clubId (store w) →
  default [] dels = [] →
  ts ≠ [] →
  (∀ t, t ∈ ts → in_id t = None) →
  let imgs := createEntityImages svc userId
                (omap (λ t, match in_coverImage t with Present i => Some i | _ => None end)
                      (filter (λ t, coverImageIdUndefined (in_coverImage t)) ts)) in
  let s' := setClubTiers (foldl (createTier clubId imgs) (clubTiers (store w)) ts) (store w) in
  upsertClubTiers svc clubId (Some ts) dels tx userId isModerator w
  = (Ok tt, mkWorld s' (committed (default DbWrite tx) w s')).
Proof.
  intros Hmay Hdels Hne Hids imgs s'. subst s'.
  destruct ts as [|t0 ts0]; [done|].
  assert (HtoCreate : filter (λ t, negb (truthy (in_id t))) (t0 :: ts0) = t0 :: ts0).
  { clear -Hids. induction (t0 :: ts0) as [|t ts IH]; [done|].
    rewrite filter_cons_True.
    - f_equal. apply IH. intros t' Ht'. by apply Hids, list_elem_of_further.
    - by rewrite (Hids t (list_elem_of_here _ _)). }
  assert (HtoUpdate : filter (λ t, in_id t ≠ None) (t0 :: ts0) = []).
  { apply filter_none. intros t Ht Hsome. by apply Hsome, Hids. }
  unfold upsertClubTiers.
  rewrite run_query, (tier_guard_passes _ _ _ _ Hmay), run_bind, Hdels.
  cbn [length]. rewrite (bool_decide_false (0 < 0)%nat) by lia.
  cbn [mret M_ret ret]. fold imgs. rewrite HtoCreate, HtoUpdate.
  rewrite (bool_decide_true (0 < length (t0 :: ts0))%nat) by (simpl; lia).
  rewrite run_execute. cbn [length store]. rewrite (bool_decide_false (0 < 0)%nat) by lia.
  unfold committed, mret, M_ret, ret. cbn. by destruct (default DbWrite tx).
Qed.

(** X16. Creating tiers.  A caller who may edit the tiers of a club and
    sends tiers without ids gets one new row per tier, appended to the table
    in the order sent, with the name and price sent: every new row belongs to
    the club of the call, whatever [clubId] the tier input carries, its id is
    new to the table, and no two new rows share an id.  The rows that were
    there are kept. *)
Theorem upsertClubTiers_creates_for_the_club (svc : Services) (clubId : Z)
    (tx : option Client) (userId : Z) (isModerator : bool)
    (ts : list UpsertClubTierInput) (w : World) :
  mayEditTiers userId isModerator clubId (store w) →
  ts ≠ [] →
  (∀ t, t ∈ ts → in_id t = None) →
  ∃ new,
    let s' := setClubTiers (clubTiers (store w) ++ new) (store w) in
    upsertClubTiers svc clubId (Some ts) None tx userId isModerator w
    = (Ok tt, mkWorld s' (committed (default DbWrite tx) w s'))
    ∧ tier_name <$> new = in_name <$> ts
    ∧ tier_unitAmount <$> new = in_unitAmount <$> ts
    ∧ (∀ r, r ∈ new → tier_clubId r = clubId ∧ tier_id r ∉ tier_id <$> clubTiers (store w))
    ∧ NoDup (tier_id <$> new).
Proof.
  intros Hmay Hne Hids.
  destruct (foldl_createTier_fresh clubId
              (createEntityImages svc userId
                 (omap (λ t, match in_coverImage t with Present i => Some i | _ => None end)
                       (filter (λ t, coverImageIdUndefined (in_coverImage t)) ts)))
              ts (clubTiers (store w)) Hids)
    as (new & Hfold & Hnames & Hamounts & Hnew & Hdup).
  exists new. cbn zeta. split_and!; try done.
  rewrite (upsertClubTiers_create_run svc clubId None tx userId isModerator ts w)
    by done.
  by rewrite Hfold.
Qed.

Lemma upsertClubTiers_creates_for_the_club_witness :
  tier_clubId <$> clubTiers (store (upsertClubTiers scenarioServices 10 (Some [tierForB]) None
                                      None 1 false publicWorld).2)
  = [10; 10; 20; 10].
Proof.
  destruct (upsertClubTiers_creates_for_the_club scenarioServices 10 None 1 false [tierForB]
              publicWorld) as (new & Hrun & _).
  - right. eexists. split; [reflexivity | by left].
  - done.
  - intros t Ht. each_member Ht. reflexivity.
  - clear Hrun. vm_compute. reflexivity.
Defined.

(** X17. Updating a tier.  A caller who may edit the tiers of one club and
    sends one tier with an id updates the tier with that id, whichever club it
    belongs to: the row takes the name, price and flags sent and keeps its id
    and its club, and every other row is left as it was.  When no tier has the
    id, the call throws the record-not-found error and nothing is written. *)
Theorem upsertClubTiers_updates_in_place (svc : Services) (clubId : Z) (tx : option Client)
    (userId : Z) (isModerator : bool) (t : UpsertClubTierInput) (id : Z) (w : World) :
  mayEditTiers userId isModerator clubId (store w) →
  in_id t = Some id →
  id ≠ 0 →
  (id ∈ tier_id <$> clubTiers (store w) →
   ∃ rows,
     let s' := setClubTiers rows (store w) in
     upsertClubTiers svc clubId (Some [t]) None tx userId isModerator w
     = (Ok tt, mkWorld s' (committed (default DbWrite tx) w s'))
     ∧ tier_id <$> rows = tier_id <$> clubTiers (store w)
     ∧ tier_clubId <$> rows = tier_clubId <$> clubTiers (store w)
     ∧ (∀ i row, clubTiers (store w) !! i = Some row → tier_id row ≠ id →
                 rows !! i = Some row)
     ∧ (∀ row, row ∈ rows → tier_id row = id →
               tier_name row = in_name t ∧ tier_unitAmount row = in_unitAmount t
               ∧ tier_unlisted row = in_unlisted t ∧ tier_joinable row = in_joinable t))
  ∧ (id ∉ tier_id <$> clubTiers (store w) →
     upsertClubTiers svc clubId (Some [t]) None tx userId isModerator w
     = (Throw RecordNotFound, w)).
Proof.
  intros Hmay Hid Hnz.
  assert (HtoCreate : filter (λ t, negb (truthy (in_id t))) [t] = []).
  { rewrite filter_cons_False, filter_nil; [done|].
    rewrite Hid. simpl. rewrite bool_decide_true by done. by intros []. }
  assert (HtoUpdate : filter (λ t, in_id t ≠ None) [t] = [t]).
  { rewrite filter_cons_True, filter_nil; [done|]. by rewrite Hid. }
  set (imgs := createEntityImages svc userId
                 (omap (λ t, match in_coverImage t with Present i => Some i | _ => None end)
                       (filter (λ t, coverImageIdUndefined (in_coverImage t)) [t]))).
  assert (Hrun : ∀ found : bool,
    bool_decide (id ∈ tier_id <$> clubTiers (store w)) = found →
    upsertClubTiers svc clubId (Some [t]) None tx userId isModerator w
    = if found
      then let s' := setClubTiers
                       ((λ row, if decide (tier_id row = id)
                                then updateTier imgs t row else row)
                          <$> clubTiers (store w)) (store w) in
           (Ok tt, mkWorld s' (committed (default DbWrite tx) w s'))
      else (Throw RecordNotFound, w)).
  { intros found Hfound. unfold upsertClubTiers.
    rewrite run_query, (tier_guard_passes _ _ _ _ Hmay), run_bind.
    cbn [default from_option length]. rewrite (bool_decide_false (0 < 0)%nat) by lia.
    cbn [mret M_ret ret]. fold imgs. rewrite HtoCreate, HtoUpdate.
    cbn [length]. rewrite (bool_decide_false (0 < 0)%nat) by lia.
    rewrite run_ret. rewrite (bool_decide_true (0 < 1)%nat) by lia.
    cbn [fmap list_fmap promiseAll]. rewrite Hid. cbn [default from_option].
    change (Datatypes.id id) with id. rewrite run_query, Hfound. destruct found.
    - unfold execute, committed. cbn. by destruct (default DbWrite tx).
    - reflexivity. }
  split.
  - intros Hin. eexists. cbn zeta. split; [|split_and!].
    + rewrite (Hrun true) by (by apply bool_decide_eq_true). reflexivity.
    + rewrite <- list_fmap_compose. apply list_fmap_ext. intros i row _. simpl.
      destruct (decide _); [|done]. reflexivity.
    + rewrite <- list_fmap_compose. apply list_fmap_ext. intros i row _. simpl.
      destruct (decide _); [|done]. reflexivity.
    + intros i row Hrow Hne. rewrite list_lookup_fmap, Hrow. simpl.
      by rewrite decide_False.
    + intros row (old & -> & Hold)%list_elem_of_fmap Hrowid.
      destruct (decide (tier_id old = id)) as [_|Hne]; [done|].
      by destruct Hne.
  - intros Hout. by rewrite (Hrun false) by (by apply bool_decide_eq_false).
Qed.

Lemma upsertClubTiers_updates_in_place_witness :
  (tier_unitAmount <$> clubTiers (store (upsertClubTiers scenarioServices 10 (Some [repriceT3])
                                           None None 1 false publicWorld).2)
   = [10; 20; 50])
  ∧ upsertClubTiers scenarioServices 10 (Some [missingTier]) None None 1 false publicWorld
    = (Throw RecordNotFound, publicWorld).
Proof.
  split.
  - destruct (proj1 (upsertClubTiers_updates_in_place scenarioServices 10 None 1 false
                       repriceT3 3 publicWorld
                       (or_intror (ex_intro _ _ (conj eq_refl (or_introl eq_refl))))
                       eq_refl ltac:(done)))
      as (rows & Hrun & _).
    + by_compute.
    + clear Hrun. vm_compute. reflexivity.
  - apply (upsertClubTiers_updates_in_place scenarioServices 10 None 1 false
             missingTier 99 publicWorld).
    + right. eexists. split; [reflexivity | by left].
    + reflexivity.
    + done.
    + by_compute.
Defined.

(** ** createClub, updateClub, upsertClub *)

Lemma tiersOnly_refl c w : tiersOnly c w w.
Proof. unfold tiersOnly. split_and!; done. Qed.

Lemma tiersOnly_trans c w1 w2 w3 : tiersOnly c w1 w2 → tiersOnly c w2 w3 → tiersOnly c w1 w3.
Proof.
  intros (H1 & H2 & H3 & H4 & H5 & H6) (K1 & K2 & K3 & K4 & K5 & K6).
  unfold tiersOnly. split_and!; try congruence.
  intros Hc. rewrite (K6 Hc). by apply H6.
Qed.

Lemma wto_bind {A B} c (m : M A) (k : A → M B) :
  writesTiersOnly c m → (∀ a, writesTiersOnly c (k a)) → writesTiersOnly c (m ≫= k).
Proof.
  intros Hm Hk w. rewrite run_bind. specialize (Hm w).
  destruct (m w) as [[a|err] w1]; [|exact Hm].
  eapply tiersOnly_trans; [exact Hm | apply Hk].
Qed.

Lemma wto_query {A} c (f : Store → A) : writesTiersOnly c (query f).
Proof. intros w. apply tiersOnly_refl. Qed.

Lemma wto_ret {A} c (a : A) : writesTiersOnly c (mret a).
Proof. intros w. apply tiersOnly_refl. Qed.

Lemma wto_throw {A} c (e : Error) : writesTiersOnly c (throw e : M A).
Proof. intros w. apply tiersOnly_refl. Qed.

Lemma wto_execute c (f : Store → list ClubTier) :
  writesTiersOnly c (execute c (λ s, setClubTiers (f s) s)).
Proof.
  intros w. unfold tiersOnly, execute. cbn. split_and!; try done. by intros ->.
Qed.

Lemma wto_promiseAll c (acts : list (M unit)) :
  (∀ a, a ∈ acts → writesTiersOnly c a) → writesTiersOnly c (promiseAll acts).
Proof.
  induction acts as [|a acts IH]; intros Hacts; [apply wto_ret|].
  intros w. cbn [promiseAll].
  pose proof (Hacts a (list_elem_of_here _ _) w) as Ha.
  assert (Hrest : writesTiersOnly c (promiseAll acts)).
  { apply IH. intros b Hb. by apply Hacts, list_elem_of_further. }
  destruct (a w) as [[u|err] w1]; cbn [snd] in *.
  - eapply tiersOnly_trans; [exact Ha | apply Hrest].
  - eapply tiersOnly_trans; [exact Ha | apply Hrest].
Qed.

Lemma upsertClubTiers_writesTiersOnly svc clubId tiers dels tx userId isModerator :
  writesTiersOnly (default DbWrite tx)
    (upsertClubTiers svc clubId tiers dels tx userId isModerator).
Proof.
  unfold upsertClubTiers. apply wto_bind; [apply wto_query|]. intros userClubs.
  destruct (_ && _ && _); [apply wto_throw|].
  apply wto_bind.
  - destruct (bool_decide _); [|apply wto_ret].
    apply wto_bind; [apply wto_query|]. intros [t|]; [apply wto_throw|].
    apply (wto_execute _ (λ s, filter (λ t, tier_id t ∉ default [] dels) (clubTiers s))).
  - intros _. destruct tiers as [[|t0 ts0]|]; try apply wto_ret.
    apply wto_bind.
    + destruct (bool_decide _); [|apply wto_ret].
      apply (wto_execute _ (λ s, foldl (createTier clubId _) (clubTiers s) _)).
    + intros _. destruct (bool_decide _); [|apply wto_ret].
      apply wto_promiseAll. intros a (t & -> & _)%list_elem_of_fmap.
      apply wto_bind; [apply wto_query|]. intros [|]; [|apply wto_throw].
      apply (wto_execute _ (λ s, (λ row, if decide (tier_id row = default 0 (in_id t))
                                         then updateTier _ t row else row) <$> clubTiers s)).
Qed.

Lemma nextClubId_above cs x : x ∈ club_id <$> cs → x < nextClubId cs.
Proof.
  unfold nextClubId. induction cs as [|c cs IH]; [by intros ?%elem_of_nil|].
  cbn. intros [->|Hx]%elem_of_cons; [lia|]. specialize (IH Hx). lia.
Qed.

Lemma world_eta w : mkWorld (store w) (trace w) = w.
Proof. by destruct w. Qed.

Lemma createClub_run svc userId input w :
  createClub svc userId input w
  = let club := mkClub (nextClubId (clubs (store w))) userId (uc_name input) in
    let w1 := mkWorld (setClubs (clubs (store w) ++ [club]) (store w)) (trace w) in
    match upsertClubTiers svc (club_id club) (Some (default [] (uc_tiers input)))
            (Some (default [] (uc_deleteTierIds input))) (Some Tx) userId false w1 with
    | (Ok _, w2) => (Ok club, mkWorld (store w2) (trace w2 ++ [Commit (store w2)]))
    | (Throw err, w2) => (Throw err, mkWorld (store w) (trace w2))
    end.
Proof.
  unfold createClub, transaction. rewrite tx_query, tx_execute, tx_bind.
  unfold onView. cbn [view outside store trace].
  by destruct (upsertClubTiers _ _ _ _ _ _ _ _) as [[u|err] w2].
Qed.

(** X18. [createClub] is all-or-nothing.  If the call throws, at whatever
    step of the tier bootstrap, the world is the one it started from: the club
    row is not there and nothing was committed.  If it completes, it has
    committed once; the club table is the old one followed by the new club,
    which is owned by the caller and has an id no club had; and the admin,
    membership and grant tables and the availability column are unchanged. *)
Theorem createClub_all_or_nothing (svc : Services) (userId : Z) (input : UpsertClubInput)
    (w : World) :
  match createClub svc userId input w with
  | (Throw _, w') => w' = w
  | (Ok club, w') =>
      trace w' = trace w ++ [Commit (store w')]
      ∧ clubs (store w') = clubs (store w) ++ [club]
      ∧ club_userId club = userId
      ∧ club_name club = uc_name input
      ∧ (club_id club ∉ club_id <$> clubs (store w))
      ∧ clubAdmins (store w') = clubAdmins (store w)
      ∧ clubMemberships (store w') = clubMemberships (store w)
      ∧ entityAccess (store w') = entityAccess (store w)
      ∧ availability (store w') = availability (store w)
  end.
Proof.
  rewrite createClub_run. cbn zeta.
  set (club := mkClub (nextClubId (clubs (store w))) userId (uc_name input)).
  set (w1 := mkWorld (setClubs (clubs (store w) ++ [club]) (store w)) (trace w)).
  pose proof (upsertClubTiers_writesTiersOnly svc (club_id club)
                (Some (default [] (uc_tiers input)))
                (Some (default [] (uc_deleteTierIds input))) (Some Tx) userId false w1)
    as (Hc & Ha & Hm & Hg & Hav & Htrace).
  cbn [default from_option] in Htrace. specialize (Htrace eq_refl).
  destruct (upsertClubTiers _ _ _ _ _ _ _ w1) as [[u|err] w2]; cbn [snd] in *.
  - cbn. rewrite Htrace. split_and!; try done.
    intros Hin%nextClubId_above. simpl in Hin. lia.
  - cbn. rewrite Htrace. subst w1. cbn. apply world_eta.
Qed.

(** X19. The creator of a club may bootstrap its tiers.  When the tiers sent
    carry no id and no tier is to be deleted, [createClub] completes: the
    permission guard of the tier registry lets the caller through as owner of
    the club just created, one tier row is added per tier sent, in order and
    with the name sent, and every one belongs to the new club. *)
Theorem createClub_bootstraps_tiers (svc : Services) (userId : Z) (input : UpsertClubInput)
    (w : World) :
  (∀ t, t ∈ default [] (uc_tiers input) → in_id t = None) →
  default [] (uc_deleteTierIds input) = [] →
  ∃ club w' new,
    createClub svc userId input w = (Ok club, w')
    ∧ clubTiers (store w') = clubTiers (store w) ++ new
    ∧ tier_name <$> new = in_name <$> default [] (uc_tiers input)
    ∧ ∀ r, r ∈ new → tier_clubId r = club_id club.
Proof.
  intros Hids Hdels. rewrite createClub_run. cbn zeta.
  set (club := mkClub (nextClubId (clubs (store w))) userId (uc_name input)).
  set (w1 := mkWorld (setClubs (clubs (store w) ++ [club]) (store w)) (trace w)).
  assert (Hmay : mayEditTiers userId false (club_id club) (store w1)).
  { right. exists (mkContributingClub (club_id club) (club_name club) userId
                     (head (adminsOf (store w1) userId (club_id club)))).
    split; [|by left]. unfold userContributingClubs. cbn [store w1 clubs setClubs].
    rewrite filter_app, (filter_none _ (clubs (store w))).
    - rewrite filter_cons_True; [reflexivity|].
      split; [simpl; apply list_elem_of_here | by left].
    - intros c Hc [Hid _]. simpl in Hid. apply list_elem_of_singleton in Hid.
      assert (Hlt : club_id c < nextClubId (clubs (store w))).
      { apply nextClubId_above, list_elem_of_fmap. by exists c. }
      simpl in Hid. lia. }
  destruct (default [] (uc_tiers input)) as [|t0 ts0] eqn:Hts.
  - exists club, (mkWorld (store w1) (trace w1 ++ [Commit (store w1)])), [].
    assert (Hrun : upsertClubTiers svc (club_id club) (Some [])
                     (Some (default [] (uc_deleteTierIds input))) (Some Tx) userId false w1
                   = (Ok tt, w1)).
    { unfold upsertClubTiers.
      rewrite run_query, (tier_guard_passes _ _ _ _ Hmay), run_bind.
      cbn [default from_option]. rewrite Hdels. cbn [length].
      by rewrite (bool_decide_false (0 < 0)%nat) by lia. }
    rewrite Hrun. cbn. split_and!; try done.
    + by rewrite app_nil_r.
    + intros r Hr. by apply elem_of_nil in Hr.
  - rewrite (upsertClubTiers_create_run svc (club_id club) _ (Some Tx) userId false
               (t0 :: ts0) w1 Hmay);
      [|cbn [default from_option]; exact Hdels | done | exact Hids].
    destruct (foldl_createTier_fresh (club_id club)
                (createEntityImages svc userId
                   (omap (λ t, match in_coverImage t with Present i => Some i | _ => None end)
                         (filter (λ t, coverImageIdUndefined (in_coverImage t)) (t0 :: ts0))))
                (t0 :: ts0) (clubTiers (store w)) Hids)
      as (new & Hfold & Hnames & _ & Hnew & _).
    eexists club, _, new. cbn. split_and!; [reflexivity | exact Hfold | exact Hnames |].
    intros r Hr. by destruct (Hnew r Hr).
Qed.

Lemma createClub_bootstraps_tiers_witness :
  ∃ club w',
    createClub scenarioServices 3
      (mkUpsertClubInput None "C" Undefined Undefined Undefined (Some [tierForB]) None)
      publicWorld
    = (Ok club, w')
    ∧ club = mkClub 21 3 "C"
    ∧ tier_clubId <$> clubTiers (store w') = [10; 10; 20; 21].
Proof.
  destruct (createClub_bootstraps_tiers scenarioServices 3
              (mkUpsertClubInput None "C" Undefined Undefined Undefined (Some [tierForB]) None)
              publicWorld) as (club & w' & new & Hrun & _).
  - intros t Ht. each_member Ht. reflexivity.
  - reflexivity.
  - exists club, w'. split; [exact Hrun|].
    assert (Hout : Some (Ok club, w')
                   = Some (createClub scenarioServices 3
                             (mkUpsertClubInput None "C" Undefined Undefined Undefined
                                (Some [tierForB]) None) publicWorld))
      by (by rewrite Hrun).
    vm_compute in Hout. injection Hout as -> ->. split; vm_compute; reflexivity.
Defined.

Lemma updateClub_run svc id userId input w :
  updateClub svc id userId input w
  = match head (filter (λ c, club_id c = id) (clubs (store w))) with
    | None => (Throw RecordNotFound, w)
    | Some old =>
        let club := mkClub (club_id old) (club_userId old) (uc_name input) in
        let s' := setClubs ((λ c, if decide (club_id c = id) then club else c)
                              <$> clubs (store w)) (store w) in
        (Ok club, mkWorld s' (trace w ++ [Commit s']))
    end.
Proof.
  unfold updateClub, transaction. rewrite tx_query. cbn [view outside].
  destruct (head _) as [old|]; reflexivity.
Qed.

(** X20. A caller without a contributing club cannot update a club: when
    [id] is given and the caller neither owns nor administers any club,
    [upsertClub] throws [AuthorizationError]; for a moderator in that position
    the read of [club.userId] on the missing club throws [TypeError] instead.
    Nothing is written in either case. *)
Theorem upsertClub_without_clubs (svc : Services) (userId : Z) (input : UpsertClubInput)
    (id : Z) (w : World) :
  uc_id input = Some id →
  id ≠ 0 →
  userContributingClubs userId None (store w) = [] →
  upsertClub svc false userId input w = (Throw AuthorizationError, w)
  ∧ upsertClub svc true userId input w = (Throw TypeError, w).
Proof.
  intros Hid Hnz Hnone. unfold upsertClub. rewrite Hid. cbn [truthy].
  rewrite bool_decide_true by done. by rewrite !run_query, Hnone.
Qed.

Lemma upsertClub_without_clubs_witness :
  upsertClub scenarioServices false 3 (renameTo (Some 10) "mine") publicWorld
  = (Throw AuthorizationError, publicWorld)
  ∧ upsertClub scenarioServices true 3 (renameTo (Some 10) "mine") publicWorld
    = (Throw TypeError, publicWorld).
Proof.
  apply (upsertClub_without_clubs scenarioServices 3 (renameTo (Some 10) "mine") 10
           publicWorld eq_refl).
  - done.
  - vm_compute. reflexivity.
Defined.

(** X21. [upsertClub] decides on the caller's first contributing club, not
    on the club being updated.  A caller who owns that first club, or holds
    [ManageClub] on it, updates the club with the given [id], whichever club
    that is: for a request that carries no tier fields the row is renamed and
    keeps its owner.  A caller who neither owns the first club nor holds
    [ManageClub] on it is rejected with [AuthorizationError], whatever their
    role in the club with the given [id]. *)
Theorem upsertClub_judges_first_club (svc : Services) (userId : Z) (input : UpsertClubInput)
    (id : Z) (w : World) (uc : ContributingClub) :
  uc_id input = Some id →
  id ≠ 0 →
  head (userContributingClubs userId None (store w)) = Some uc →
  let manages := ∃ a, cc_admin uc = Some a ∧ ManageClub ∈ admin_permissions a in
  (cc_userId uc = userId ∨ manages →
   uc_tiers input = None ∧ uc_deleteTierIds input = None →
   ∀ old, head (filter (λ c, club_id c = id) (clubs (store w))) = Some old →
          ∃ s', upsertClub svc false userId input w
                = (Ok (mkClub id (club_userId old) (uc_name input)),
                   mkWorld s' (trace w ++ [Commit s']))
                ∧ mkClub id (club_userId old) (uc_name input) ∈ clubs s')
  ∧ (cc_userId uc ≠ userId → ¬ manages →
     upsertClub svc false userId input w = (Throw AuthorizationError, w)).
Proof.
  intros Hid Hnz Huc manages.
  assert (Hrun : upsertClub svc false userId input w
                 = if bool_decide (cc_userId uc = userId)
                      || match cc_admin uc with
                         | Some a => bool_decide (ManageClub ∈ admin_permissions a)
                         | None => false
                         end
                   then updateClub svc id userId input w
                   else (Throw AuthorizationError, w)).
  { unfold upsertClub. rewrite Hid. cbn [truthy]. rewrite bool_decide_true by done.
    rewrite run_query, Huc. cbn [negb andb].
    destruct (bool_decide (cc_userId uc = userId)); [reflexivity|].
    destruct (cc_admin uc) as [a|]; [|reflexivity].
    destruct (bool_decide (ManageClub ∈ admin_permissions a)); reflexivity. }
  split.
  - intros Hallowed _ old Hold. rewrite Hrun.
    assert (Htrue : bool_decide (cc_userId uc = userId)
                    || match cc_admin uc with
                       | Some a => bool_decide (ManageClub ∈ admin_permissions a)
                       | None => false
                       end = true).
    { destruct Hallowed as [Hown|(a & -> & Hperm)].
      - by rewrite bool_decide_true.
      - rewrite (bool_decide_true (ManageClub ∈ _)) by done. apply orb_true_r. }
    rewrite Htrue, updateClub_run, Hold. cbn zeta.
    apply head_filter_Some in Hold as [Hin Holdid]. rewrite Holdid.
    eexists. split; [reflexivity|]. cbn.
    apply list_elem_of_fmap. exists old. split; [|done]. by rewrite decide_True.
  - intros Hne Hnot. rewrite Hrun.
    rewrite bool_decide_false by done.
    destruct (cc_admin uc) as [a|] eqn:Ha; [|done].
    rewrite bool_decide_false; [done|]. intros Hperm. apply Hnot. by exists a.
Qed.

Lemma upsertClub_judges_first_club_witness :
  (∃ s', upsertClub scenarioServices false 1 (renameTo (Some 20) "taken") publicWorld
         = (Ok (mkClub 20 2 "taken"), mkWorld s' [Commit s'])
         ∧ clubs s' = [clubA; mkClub 20 2 "taken"])
  ∧ upsertClub scenarioServices false 4 (renameTo (Some 10) "mine") publicWithAdmins
    = (Throw AuthorizationError, publicWithAdmins).
Proof.
  split.
  - destruct (proj1 (upsertClub_judges_first_club scenarioServices 1
                       (renameTo (Some 20) "taken") 20 publicWorld
                       (mkContributingClub 10 "A" 1 None) eq_refl ltac:(done) eq_refl)
                    (or_introl eq_refl) (conj eq_refl eq_refl) clubB eq_refl)
      as (s' & Hrun & _).
    exists s'. split; [exact Hrun|].
    assert (Hs : Some s' = Some (store (upsertClub scenarioServices false 1
                                          (renameTo (Some 20) "taken") publicWorld).2))
      by (by rewrite Hrun).
    injection Hs as ->. vm_compute. reflexivity.
  - apply (upsertClub_judges_first_club scenarioServices 4 (renameTo (Some 10) "mine") 10
             publicWithAdmins (mkContributingClub 10 "A" 1 (Some (mkClubAdmin 10 4 [])))
             eq_refl ltac:(done) eq_refl).
    + done.
    + intros (a & Ha & Hperm). injection Ha as <-. by apply elem_of_nil in Hperm.
Defined.

(** ** The availability invariant, again *)


